(** * Instacart recommender notebook (src/imf.ipynb): model and properties

    The notebook builds a product x user purchase-count matrix from the
    order tables, hands it to the ALS implementation of the [implicit]
    package, and evaluates the recommendations by recall against a
    popularity baseline.  This file embeds the notebook's own functions
    (the pandas / scipy calls they make are written out as list
    functions) and proves the properties the specification states about
    them. *)

From Stdlib Require Import ZArith QArith Lia Lqa Ascii.
From stdpp Require Import gmap sets list sorting strings.

Local Open Scope Z_scope.

(** ** Python exceptions

    A call either returns a value or raises; an exception is named by
    its class, as Python prints it. *)

Inductive result (A : Type) : Type :=
  | Ok (a : A)
  | Raise (exn : string).
Arguments Ok {A} a.
Arguments Raise {A} exn.

Global Instance result_ret : MRet result := λ A a, Ok a.

Global Instance result_bind : MBind result := λ A B k r,
  match r with
  | Ok a => k a
  | Raise e => Raise e
  end.

(** [d[k]] on a dict *)
Definition dict_get `{Countable K} {V} (d : gmap K V) (k : K) : result V :=
  match d !! k with
  | Some v => Ok v
  | None => Raise "KeyError"
  end.

(** ** Integer widths

    Counts are numpy [int64]; arithmetic on them wraps around.
    [astype("double")] rounds an [int64] to the nearest double, ties to
    even; the double is represented by the integer it holds. *)

Definition wrap64 (z : Z) : Z := (z + 2 ^ 63) mod 2 ^ 64 - 2 ^ 63.

Definition astype_double (z : Z) : Z :=
  let a := Z.abs z in
  if a <=? 2 ^ 53 then z
  else
    let e := Z.log2 a - 52 in
    let q := a / 2 ^ e in
    let r := a mod 2 ^ e in
    let half := 2 ^ (e - 1) in
    let q' := if r <? half then q
              else if half <? r then q + 1
              else if Z.even q then q else q + 1 in
    Z.sgn z * (q' * 2 ^ e).

Definition sum_Z (l : list Z) : Z := foldr Z.add 0 l.

(** ** Sorted distinct keys

    pandas orders categories and group keys ascending and keeps each
    once. *)

Module Keys.
Section keys.
Context {K : Type} `{EqDecision K}.
Context (R : relation K) `{∀ x y, Decision (R x y)}.

Definition unique_sorted (l : list K) : list K :=
  merge_sort R (remove_dups l).

(** position of [x] in [l], as [Index.get_loc]; -1 when absent, the
    code pandas gives a value outside the categories *)
Definition code_of (l : list K) (x : K) : Z :=
  match list_find (λ y, y = x) l with
  | Some (i, _) => Z.of_nat i
  | None => -1
  end.

Definition occurrences (x : K) (l : list K) : nat :=
  length (filter (λ y, y = x) l).
End keys.
End Keys.

Definition pair_le (a b : Z * Z) : Prop :=
  a.1 < b.1 ∨ (a.1 = b.1 ∧ a.2 ≤ b.2).

Definition index_le (a b : nat * nat) : Prop :=
  (a.1 < b.1)%nat ∨ (a.1 = b.1 ∧ (a.2 ≤ b.2)%nat).

Global Instance pair_le_dec a b : Decision (pair_le a b).
Proof. unfold pair_le. apply _. Defined.

Global Instance index_le_dec a b : Decision (index_le a b).
Proof. unfold index_le. apply _. Defined.

(** ** Data frames *)

(** a row of [df_orders]; the notebook reads these three columns *)
Record order_row := {
  o_order_id : Z;
  o_user_id : Z;
  o_eval_set : string
}.

(** a row of [df_order_products_prior]: the two columns the notebook
    selects, and the row's remaining columns in file order *)
Record order_product_row := {
  op_order_id : Z;
  op_product_id : Z;
  op_other : list Z
}.

(** a row of [df_user_product_prior] *)
Record user_product_row := {
  user_id : Z;
  product_id : Z;
  quantity : Z
}.

(** a row of the frame of held-out baskets.  Its [products] cell is a
    list of product ids in the frame [make_test_data] builds, and text
    (the printed list, as in ["[196, 25133]"]) in [df_user_products_test],
    which is read back from the file. *)
Record frame_row (C : Type) := {
  t_user_id : Z;
  t_products : C
}.
Arguments Build_frame_row {C} _ _.
Arguments t_user_id {C} _.
Arguments t_products {C} _.

Abbreviation test_row := (frame_row string).

(** [pd.merge(left, right, on="order_id")]: inner join, one output row
    per matching pair, then the columns [user_id], [product_id] *)
Definition merge_on_order_id (left : list order_row)
    (right : list order_product_row) : list (Z * Z) :=
  l ← left;
  r ← filter (λ r, op_order_id r = o_order_id l) right;
  [(o_user_id l, op_product_id r)].

(** [groupby([...]).size().reset_index()] with the size column renamed
    to [quantity] *)
Definition groupby_size (pairs : list (Z * Z)) : list user_product_row :=
  (λ k, {| user_id := k.1; product_id := k.2;
           quantity := Z.of_nat (Keys.occurrences k pairs) |})
    <$> Keys.unique_sorted pair_le pairs.

Definition get_user_product_prior_df (df_orders : list order_row)
    (df_order_products_prior : list order_product_row) : list user_product_row :=
  let df_order_user_prior :=
    filter (λ o, o_eval_set o = "prior"%string) df_orders in
  let df_merged := merge_on_order_id df_order_user_prior df_order_products_prior in
  groupby_size df_merged.

(** [astype("category")]: the categories of a column, and the code of
    each of its values *)
Definition categories (col : list Z) : list Z := Keys.unique_sorted Z.le col.

Definition cat_codes (col : list Z) : list Z :=
  Keys.code_of (categories col) <$> col.

(** ** Sparse matrices

    A scipy sparse matrix: its shape and its stored entries
    [(row, column, value)]. *)

Record sparse_matrix := {
  shape : nat * nat;
  entries : list (nat * nat * Z)
}.

(** [sparse.coo_matrix((data, (row, col)))] without a shape: the shape
    is inferred from the largest indices *)
Definition coo_matrix (data row col : list Z) : result sparse_matrix :=
  if decide (row = [] ∨ col = []) then Raise "ValueError"
  else if decide (Exists (λ i, i < 0) row ∨ Exists (λ j, j < 0) col)
  then Raise "ValueError"
  else
    let row' := Z.to_nat <$> row in
    let col' := Z.to_nat <$> col in
    Ok {| shape := (S (max_list row'), S (max_list col'));
          entries := zip (zip row' col') data |}.

(** [.tocsr()]: entries in row-major order, duplicates summed *)
Definition tocsr (m : sparse_matrix) : sparse_matrix :=
  {| shape := shape m;
     entries :=
       (λ k, (k, wrap64 (sum_Z (snd <$> filter (λ e, e.1 = k) (entries m)))))
         <$> Keys.unique_sorted index_le (fst <$> entries m) |}.

(** [.T] *)
Definition transpose (m : sparse_matrix) : sparse_matrix :=
  {| shape := ((shape m).2, (shape m).1);
     entries := (λ e, ((e.1.2, e.1.1), e.2)) <$> entries m |}.

(** [m[i].indices]: the columns stored in row [i] *)
Definition row_indices (m : sparse_matrix) (i : nat) : result (list nat) :=
  if decide (i < (shape m).1)%nat
  then Ok ((λ e, e.1.2) <$> filter (λ e, e.1.1 = i) (entries m))
  else Raise "IndexError".

(** [m[i, j]] *)
Definition getitem (m : sparse_matrix) (i j : nat) : result Z :=
  if decide ((i < (shape m).1)%nat ∧ (j < (shape m).2)%nat)
  then Ok (wrap64 (sum_Z (snd <$> filter (λ e, e.1 = (i, j)) (entries m))))
  else Raise "IndexError".

(** ** Utility matrix *)

Definition build_product_user_matrix (df_user_product_prior : list user_product_row)
    : result sparse_matrix :=
  coo_matrix (quantity <$> df_user_product_prior)
             (cat_codes (product_id <$> df_user_product_prior))
             (cat_codes (user_id <$> df_user_product_prior)).

(** ** Confidence matrix

    [(prod_user_matrix * alpha).astype("double")]; [alpha] is the
    integer of [model_params]. *)

Definition confidence_matrix (prod_user_matrix : sparse_matrix) (alpha : Z)
    : sparse_matrix :=
  {| shape := shape prod_user_matrix;
     entries := (λ e, (e.1, astype_double (wrap64 (e.2 * alpha))))
                  <$> entries prod_user_matrix |}.

(** ** Id / index dictionaries *)

Definition enumerate {A} (l : list A) : list (nat * A) := imap pair l.

(** [{uid: i for i, uid in enumerate(cats)}]: a later pair replaces an
    earlier one with the same key *)
Definition make_u_dict (cats : list Z) : gmap Z nat :=
  foldl (λ d iu, <[iu.2 := iu.1]> d) ∅ (enumerate cats).

(** [dict(enumerate(cats))] *)
Definition make_p_dict (cats : list Z) : gmap nat Z :=
  foldl (λ d ip, <[ip.1 := ip.2]> d) ∅ (enumerate cats).

(** ** Popularity baseline *)

(** a row of [df_products] *)
Record product_row := {
  p_product_id : Z;
  p_product_name : string
}.

(** [pd.merge(df_order_products_prior, df_products, on="product_id",
    how="left")]: every left row is kept, once per matching product and
    once when none matches *)
Definition merge_products_left (left : list order_product_row)
    (right : list product_row) : list (order_product_row * option product_row) :=
  l ← left;
  match filter (λ p, p_product_id p = op_product_id l) right with
  | [] => [(l, None)]
  | ps => (λ p, (l, Some p)) <$> ps
  end.

(** a stable sort, as Python's [sorted] and the sort of
    [value_counts] are: elements that compare equal keep the order they
    come in *)
Fixpoint insert_sorted {A} (R : relation A) `{∀ x y, Decision (R x y)}
    (x : A) (l : list A) : list A :=
  match l with
  | [] => [x]
  | y :: l' => if decide (R x y) then x :: y :: l' else y :: insert_sorted R x l'
  end.

Definition stable_sort {A} (R : relation A) `{∀ x y, Decision (R x y)}
    (l : list A) : list A :=
  foldr (insert_sorted R) [] l.

(** the distinct values of a column, in the order they first appear *)
Definition first_seen (col : list Z) : list Z :=
  reverse (remove_dups (reverse col)).

(** [Series.value_counts()]: the distinct values with their number of
    occurrences, by descending count; values with the same count stay
    in the order they first appear *)
Definition count_ge (col : list Z) (a b : Z) : Prop :=
  (Keys.occurrences b col ≤ Keys.occurrences a col)%nat.

Global Instance count_ge_dec col a b : Decision (count_ge col a b).
Proof. unfold count_ge. apply _. Defined.

Definition value_counts (col : list Z) : list (Z * nat) :=
  (λ x, (x, Keys.occurrences x col))
    <$> stable_sort (count_ge col) (first_seen col).

Definition get_k_popular (k : nat)
    (df_merged_order_products_prior : list (order_product_row * option product_row))
    : list Z :=
  let col := (λ r, op_product_id r.1) <$> df_merged_order_products_prior in
  fst <$> take k (value_counts col).

(** ** Recall

    [len(...) / len(...)] is Python's true division of two integers;
    the quotient is kept exact here, and the double Python returns is
    the nearest one to it. *)

Definition recall_score (actual pred : list Z) : Q :=
  if decide (length actual = 0%nat) then 0%Q
  else
    let actual' : gset Z := list_to_set actual in
    let pred' : gset Z := list_to_set pred in
    (inject_Z (Z.of_nat (size (actual' ∩ pred')))
       / inject_Z (Z.of_nat (size actual')))%Q.

(** ** The fitted model

    [imf_model] is the pickled [AlternatingLeastSquares] object of the
    [implicit] package; its factor matrices are data here, one row per
    user and per item. *)

Record als_model := {
  user_factors : list (list Q);
  item_factors : list (list Q)
}.

Definition dot (x y : list Q) : Q := foldr Qplus 0%Q (zip_with Qmult x y).

Definition score_ge (a b : nat * Q) : Prop := (b.2 <= a.2)%Q.

Global Instance score_ge_dec a b : Decision (score_ge a b).
Proof. unfold score_ge, Qle. apply _. Defined.

(** [sorted(..., key=lambda x: -x[1])]: best score first, equal scores
    in the order they come in *)
Definition sorted_by_score (l : list (nat * Q)) : list (nat * Q) :=
  stable_sort score_ge l.

(** [np.argpartition(scores, -count)[-count:]] paired with the scores:
    the [count] best-scoring items *)
Definition argpartition_top (count : nat) (scores : list Q) : list (nat * Q) :=
  take count (sorted_by_score (enumerate scores)).

(** [model.recommend(userid, user_items, N)], a method of the [implicit]
    package: the items are scored against the user's factors, the
    [N + len(liked)] best are ranked, and the first [N] of them that the
    user's row of [user_items] does not hold are returned with their
    scores.  Which of several equally scored items [argpartition] keeps
    is left open by numpy; the ranking below fixes one choice, and
    nothing proved here depends on it. *)
Definition recommend (model : als_model) (userid : nat)
    (user_items : sparse_matrix) (N : nat) : result (list (nat * Q)) :=
  user ← match user_factors model !! userid with
         | Some u => Ok u
         | None => Raise "IndexError"
         end;
  liked_indices ← row_indices user_items userid;
  let liked : gset nat := list_to_set liked_indices in
  let scores := dot user <$> item_factors model in
  let count := (N + size liked)%nat in
  let best :=
    if decide (count < length scores)%nat
    then sorted_by_score (argpartition_top count scores)
    else sorted_by_score (enumerate scores) in
  Ok (take N (filter (λ rec, rec.1 ∉ liked) best)).

(** ** Evaluation

    The notebook's globals read by the evaluation functions. *)

Record notebook := {
  u_dict : gmap Z nat;
  p_dict : gmap nat Z;
  user_product_matrix : sparse_matrix;
  popular_products : list Z;
  imf_model : als_model
}.

Definition N_REC : nat := 10.

(** *** Reading the products cell

    The text of a cell is held as the list of its characters, for
    characters with a code point below 256 (all the characters a
    printed list of integers is made of); [int] and [strip] are those
    of Python 3.6, the version of the notebook. *)

(** [str.isspace] on these characters *)
Definition is_space (c : ascii) : bool :=
  let n := nat_of_ascii c in
  bool_decide ((9 ≤ n ≤ 13)%nat ∨ (28 ≤ n ≤ 32)%nat ∨ n = 133%nat ∨ n = 160%nat).

Definition is_digit (c : ascii) : bool :=
  let n := nat_of_ascii c in bool_decide (48 ≤ n ≤ 57)%nat.

Definition digit_value (c : ascii) : Z := Z.of_nat (nat_of_ascii c) - 48.

Fixpoint lstrip (s : list ascii) : list ascii :=
  match s with
  | c :: s' => if is_space c then lstrip s' else s
  | [] => []
  end.

(** [s.strip()] *)
Definition strip (s : list ascii) : list ascii :=
  reverse (lstrip (reverse (lstrip s))).

(** [s.split(sep)] for a separator of one character: never empty *)
Fixpoint split (sep : ascii) (s : list ascii) : list (list ascii) :=
  match s with
  | [] => [[]]
  | c :: s' =>
      if decide (c = sep) then [] :: split sep s'
      else match split sep s' with
           | p :: ps => (c :: p) :: ps
           | [] => [[c]]
           end
  end.

(** [s[1:-1]] *)
Definition slice_1_m1 (s : list ascii) : list ascii :=
  take (length s - 2) (drop 1 s).

(** the digits of a decimal literal, single underscores allowed between
    digits; [after_digit] tells whether the character before was one *)
Fixpoint int_digits (acc : Z) (after_digit : bool) (s : list ascii) : option Z :=
  match s with
  | [] => if after_digit then Some acc else None
  | c :: s' =>
      if is_digit c then int_digits (10 * acc + digit_value c) true s'
      else if decide (c = "_"%char)
           then (if after_digit then int_digits acc false s' else None)
           else None
  end.

(** [int(s)]: surrounding whitespace, an optional sign, decimal digits *)
Definition py_int (s : list ascii) : result Z :=
  let digits sign body :=
    match int_digits 0 false body with
    | Some n => Ok (sign * n)
    | None => Raise "ValueError"
    end in
  match strip s with
  | c :: body =>
      if decide (c = "-"%char) then digits (-1) body
      else if decide (c = "+"%char) then digits 1 body
      else digits 1 (c :: body)
  | [] => Raise "ValueError"
  end.

(** [[int(p.strip()) for p in cell[1:-1].strip().split(",")]] *)
Definition parse_products (cell : string) : result (list Z) :=
  mapM (λ p, py_int (strip p))
       (split ","%char (strip (slice_1_m1 (String.list_ascii_of_string cell)))).

Section evaluation.
Context (nb : notebook).

Definition new_products (row : test_row) : result (gset Z) :=
  products ← parse_products (t_products row);
  let actual : gset Z := list_to_set products in
  u ← dict_get (u_dict nb) (t_user_id row);
  indices ← row_indices (user_product_matrix nb) u;
  liked ← mapM (dict_get (p_dict nb)) indices;
  Ok (actual ∖ list_to_set liked).

Definition popular_recommend (row : test_row) : result Q :=
  actual ← new_products row;
  Ok (recall_score (elements actual) (popular_products nb)).

Definition imf_recommend (row : test_row) : result Q :=
  actual ← new_products row;
  u ← dict_get (u_dict nb) (t_user_id row);
  recommended ← recommend (imf_model nb) u (user_product_matrix nb) N_REC;
  recommended ← mapM (λ r, dict_get (p_dict nb) r.1) recommended;
  Ok (recall_score (elements actual) recommended).
End evaluation.

(** The globals as the notebook's cells compute them from the data
    frames and the fitted model. *)
Definition run_notebook (df_orders : list order_row)
    (df_order_products_prior : list order_product_row)
    (df_products : list product_row) (model : als_model) : result notebook :=
  let df_merged_order_products_prior :=
    merge_products_left df_order_products_prior df_products in
  let df_user_product_prior :=
    get_user_product_prior_df df_orders df_order_products_prior in
  m ← build_product_user_matrix df_user_product_prior;
  let product_user_matrix := tocsr m in
  Ok {| u_dict := make_u_dict (categories (user_id <$> df_user_product_prior));
        p_dict := make_p_dict (categories (product_id <$> df_user_product_prior));
        user_product_matrix := tocsr (transpose product_user_matrix);
        popular_products := get_k_popular N_REC df_merged_order_products_prior;
        imf_model := model |}.

(** ** Held-out baskets *)

(** [len(col.unique())] *)
Definition unique_count (col : list Z) : nat := length (remove_dups col).

(** [groupby("order_id")["product_id"].apply(list).reset_index()]: one
    row per order id, ascending, with the order's products in file
    order *)
Definition groupby_products (df : list order_product_row) : list (Z * list Z) :=
  (λ o, (o, op_product_id <$> filter (λ l, op_order_id l = o) df))
    <$> Keys.unique_sorted Z.le (op_order_id <$> df).

(** the frame [make_test_data] writes to disk; [DataFrame.size] is rows
    times columns, and both frames compared have two columns *)
Definition make_test_data (df_orders : list order_row)
    (df_order_products_train : list order_product_row)
    : result (list (frame_row (list Z))) :=
  let df_order_user_current :=
    filter (λ o, o_eval_set o = "train"%string) df_orders in
  if decide (unique_count (o_order_id <$> df_order_user_current)
             ≠ unique_count (op_order_id <$> df_order_products_train))
  then Raise "AssertionError"
  else
    let df_order_products_test := groupby_products df_order_products_train in
    if decide ((length df_order_products_test * 2)%nat
               ≠ (length df_order_user_current * 2)%nat)
    then Raise "AssertionError"
    else
      Ok (l ← df_order_user_current;
          r ← filter (λ r, r.1 = o_order_id l) df_order_products_test;
          [{| t_user_id := o_user_id l; t_products := r.2 |}]).

(** ** The test frame on disk

    [make_test_data] writes its frame with [to_csv] and the notebook
    reads it back with [read_csv]: a cell holding a list is written as
    Python prints it, [str(list)], and comes back as that text. *)

(** the character of a decimal digit *)
Definition digit_char (d : Z) : ascii := ascii_of_nat (48 + Z.to_nat d).

(** the decimal digits of [n], by repeated division, in front of
    [acc]; the number of binary digits of [n] is fuel enough *)
Fixpoint digits_of (fuel : nat) (n : Z) (acc : list ascii) : list ascii :=
  match fuel with
  | O => acc
  | S fuel' =>
      let acc' := digit_char (n mod 10) :: acc in
      if decide (n < 10) then acc' else digits_of fuel' (n / 10) acc'
  end.

(** the characters [str(n)] is made of *)
Definition num_char (c : ascii) : Prop := is_digit c = true ∨ c = "-"%char.

(** [str(n)] *)
Definition str_int (n : Z) : list ascii :=
  let digits m := digits_of (S (Z.to_nat (Z.log2 m))) m [] in
  if decide (n < 0) then "-"%char :: digits (- n) else digits n.

(** [", ".join(ps)] *)
Fixpoint join_comma (ps : list (list ascii)) : list ascii :=
  match ps with
  | [] => []
  | [p] => p
  | p :: ps' => p ++ ","%char :: " "%char :: join_comma ps'
  end.

(** [str(l)] for a list of integers, as in ["[196, 25133]"] *)
Definition str_list (l : list Z) : string :=
  String.string_of_list_ascii ("["%char :: join_comma (str_int <$> l) ++ ["]"%char]).

(** the frame after [to_csv] and [read_csv] *)
Definition written_and_read (rows : list (frame_row (list Z))) : list test_row :=
  (λ r, {| t_user_id := t_user_id r; t_products := str_list (t_products r) |})
    <$> rows.

(** ** Sparsity

    [matrix.size] of a sparse matrix is the number of stored entries;
    the percentage is kept as the exact quotient. *)

Definition sparsity (matrix : sparse_matrix) : result Q :=
  let total_size := ((shape matrix).1 * (shape matrix).2)%nat in
  let actual_size := length (entries matrix) in
  if decide (total_size = 0%nat) then Raise "ZeroDivisionError"
  else Ok ((1 - inject_Z (Z.of_nat actual_size) / inject_Z (Z.of_nat total_size))
           * 100)%Q.

(** ** Evaluation frame

    [build_eval_df] adds the two score columns to the test frame, or to
    a sample of it.  What [DataFrame.sample(n=int(len(df) * subset),
    random_state=7)] draws, or raises, is given by [sample]; [subset] is
    [None] or a number, and [if subset] takes a non-zero number only. *)

Record eval_row := {
  e_row : test_row;
  popular_score : Q;
  imf_score : Q
}.

Section build_eval.
Context (sample : list test_row → Q → result (list test_row)).

(** the rows evaluated: [df_eval] before the score columns are added *)
Definition df_eval_rows (df_user_products_test : list test_row)
    (subset : option Q) : result (list test_row) :=
  match subset with
  | Some s => if Qeq_bool s 0 then Ok df_user_products_test
              else sample df_user_products_test s
  | None => Ok df_user_products_test
  end.

(** on a frame without rows, [apply] gives back an empty frame, which
    cannot be assigned to the score column: [ValueError] *)
Definition build_eval_df (nb : notebook) (df_user_products_test : list test_row)
    (subset : option Q) : result (list eval_row) :=
  df_eval ← df_eval_rows df_user_products_test subset;
  if decide (df_eval = []) then Raise "ValueError" else
  popular ← mapM (popular_recommend nb) df_eval;
  imf ← mapM (imf_recommend nb) df_eval;
  Ok (zip_with (λ r ps, {| e_row := r; popular_score := ps.1; imf_score := ps.2 |})
        df_eval (zip popular imf)).
End build_eval.

(** ** A small data set

    Two users and three products; user 1 bought product 196 in two prior
    orders. *)

Module Sample.
Definition df_orders : list order_row :=
  [ {| o_order_id := 1; o_user_id := 1; o_eval_set := "prior" |};
    {| o_order_id := 2; o_user_id := 1; o_eval_set := "prior" |};
    {| o_order_id := 3; o_user_id := 2; o_eval_set := "prior" |};
    {| o_order_id := 4; o_user_id := 2; o_eval_set := "train" |} ].

Definition df_order_products_prior : list order_product_row :=
  [ {| op_order_id := 1; op_product_id := 196; op_other := [1; 0] |};
    {| op_order_id := 2; op_product_id := 196; op_other := [1; 1] |};
    {| op_order_id := 2; op_product_id := 50; op_other := [2; 0] |};
    {| op_order_id := 3; op_product_id := 77; op_other := [1; 0] |};
    {| op_order_id := 3; op_product_id := 196; op_other := [2; 0] |};
    {| op_order_id := 4; op_product_id := 77; op_other := [1; 1] |} ].

Definition df_products : list product_row :=
  [ {| p_product_id := 50; p_product_name := "Yoghurt" |};
    {| p_product_id := 77; p_product_name := "Tea" |};
    {| p_product_id := 196; p_product_name := "Soda" |} ].

Definition df_user_product_prior : list user_product_row :=
  [ {| user_id := 1; product_id := 50; quantity := 1 |};
    {| user_id := 1; product_id := 196; quantity := 2 |};
    {| user_id := 2; product_id := 77; quantity := 1 |};
    {| user_id := 2; product_id := 196; quantity := 1 |} ].

Definition model : als_model :=
  {| user_factors := [[1 # 2; 1]; [1; 0]]%Q;
     item_factors := [[1; 1]; [2; 0]; [0; 3]]%Q |}.

(** the globals the notebook computes from these frames *)
Definition globals : notebook :=
  {| u_dict := make_u_dict [1; 2];
     p_dict := make_p_dict [50; 77; 196];
     user_product_matrix :=
       {| shape := (2%nat, 3%nat);
          entries := [((0%nat, 0%nat), 1); ((0%nat, 2%nat), 2);
                      ((1%nat, 1%nat), 1); ((1%nat, 2%nat), 1)] |};
     popular_products := [196; 77; 50];
     imf_model := model |}.

(** a held-out basket of user 2 with a product unknown to the training
    data, and a basket of a user unknown to it *)
Definition basket_of_user_2 : test_row :=
  {| t_user_id := 2; t_products := "[77, 50, 999]" |}.

Definition basket_of_user_3 : test_row :=
  {| t_user_id := 3; t_products := "[77, 50]" |}.

(** product 196 (row 0) bought ten times by user 1 (column 0) *)
Definition ten_purchases : sparse_matrix :=
  {| shape := (1%nat, 1%nat); entries := [((0%nat, 0%nat), 10)] |}.


(** a frame in which the pair of user 1 and product 196 has two rows *)
Definition repeated_pair : list user_product_row :=
  [ {| user_id := 1; product_id := 196; quantity := 3 |};
    {| user_id := 2; product_id := 50; quantity := 1 |};
    {| user_id := 1; product_id := 196; quantity := 4 |} ].
End Sample.

(** the held-out orders of the sample, and the frame of baskets
    [make_test_data] makes of them *)
Module SampleTest.
Definition df_order_products_train : list order_product_row :=
  [ {| op_order_id := 4; op_product_id := 77; op_other := [1; 1] |};
    {| op_order_id := 4; op_product_id := 50; op_other := [2; 0] |} ].

Definition df_user_products_test : list (frame_row (list Z)) :=
  [ {| t_user_id := 2; t_products := [77; 50] |} ].

(** rows as read back from the file: a basket without new products, and
    the text of an empty list, which does not parse *)
Definition nothing_new : test_row :=
  {| t_user_id := 2; t_products := "[77, 196]" |}.


Definition basket_of_third_user : test_row :=
  {| t_user_id := 3; t_products := "[50, 77]" |}.

(** a model with two user rows only, and the globals of a third user
    whose purchases it has not seen *)
Definition three_users : notebook :=
  {| u_dict := make_u_dict [1; 2; 3];
     p_dict := make_p_dict [50; 77; 196];
     user_product_matrix :=
       {| shape := (3%nat, 3%nat);
          entries := [((0%nat, 0%nat), 1); ((1%nat, 1%nat), 1);
                      ((2%nat, 2%nat), 1)] |};
     popular_products := [196; 77; 50];
     imf_model := Sample.model |}.
End SampleTest.

(** * Properties *)

(** ** Sorted distinct keys *)

Module KeysFacts.
Section facts.
Context {K : Type} `{EqDecision K}.
Context (R : relation K) `{∀ x y, Decision (R x y)}.
Context `{!Total R, !Transitive R, !AntiSymm (=) R}.

Lemma elem_of_unique_sorted (l : list K) x :
  x ∈ Keys.unique_sorted R l ↔ x ∈ l.
Proof.
  unfold Keys.unique_sorted.
  rewrite merge_sort_Permutation. apply elem_of_remove_dups.
Qed.

Lemma NoDup_unique_sorted (l : list K) : NoDup (Keys.unique_sorted R l).
Proof.
  unfold Keys.unique_sorted.
  rewrite merge_sort_Permutation. apply NoDup_remove_dups.
Qed.

Lemma StronglySorted_unique_sorted (l : list K) :
  StronglySorted R (Keys.unique_sorted R l).
Proof. apply StronglySorted_merge_sort; apply _. Qed.

Lemma StronglySorted_NoDup_strict (l : list K) :
  StronglySorted R l → NoDup l → StronglySorted (λ x y, R x y ∧ x ≠ y) l.
Proof.
  induction 1 as [|x l Hl IH Hx]; intros Hnd; constructor.
  - apply IH. by apply NoDup_cons in Hnd as [_ ?].
  - apply NoDup_cons in Hnd as [Hnot _].
    rewrite Forall_forall in Hx |- *. intros y Hy. split; [by apply Hx|].
    intros ->. by apply Hnot.
Qed.

(** the keys depend on the values present only, not on their order or
    their multiplicity *)
Lemma unique_sorted_ext (l1 l2 : list K) :
  (∀ x, x ∈ l1 ↔ x ∈ l2) → Keys.unique_sorted R l1 = Keys.unique_sorted R l2.
Proof.
  intros Hext.
  apply (StronglySorted_unique R); try apply StronglySorted_unique_sorted.
  apply NoDup_Permutation; try apply NoDup_unique_sorted.
  intros x. by rewrite !elem_of_unique_sorted.
Qed.

Lemma code_of_lookup (l : list K) x :
  x ∈ l →
  ∃ i : nat, Keys.code_of l x = Z.of_nat i ∧ l !! i = Some x.
Proof.
  intros Hx. unfold Keys.code_of.
  destruct (list_find_elem_of (λ y, y = x) l x Hx eq_refl) as [[i y] Hfind].
  rewrite Hfind. apply list_find_Some in Hfind as (Hi & -> & _).
  by exists i.
Qed.

Lemma code_of_absent (l : list K) x : x ∉ l → Keys.code_of l x = -1.
Proof.
  intros Hx. unfold Keys.code_of.
  destruct (list_find _ l) as [[i y]|] eqn:Hfind; [|done].
  apply list_find_Some in Hfind as (Hi & -> & _).
  destruct Hx. by eapply list_elem_of_lookup_2.
Qed.

Lemma occurrences_pos (l : list K) x :
  x ∈ l ↔ (0 < Keys.occurrences x l)%nat.
Proof.
  unfold Keys.occurrences. split.
  - intros Hx. assert (x ∈ filter (λ y, y = x) l) as Hin
      by (by apply list_elem_of_filter).
    destruct (filter _ l); [by apply elem_of_nil in Hin | simpl; lia].
  - intros Hlen. destruct (filter (λ y, y = x) l) as [|y l'] eqn:Hf;
      [simpl in Hlen; lia|].
    assert (y ∈ filter (λ y, y = x) l) as Hin by (rewrite Hf; left).
    apply list_elem_of_filter in Hin as [-> ?]. done.
Qed.
End facts.
End KeysFacts.

Global Instance pair_le_total : Total pair_le.
Proof. intros [a1 a2] [b1 b2]. unfold pair_le. simpl. lia. Qed.

Global Instance pair_le_trans : Transitive pair_le.
Proof. intros [a1 a2] [b1 b2] [c1 c2]. unfold pair_le. simpl. lia. Qed.

Global Instance pair_le_antisymm : AntiSymm (=) pair_le.
Proof.
  intros [a1 a2] [b1 b2]. unfold pair_le. simpl. intros ? ?.
  f_equal; lia.
Qed.

Global Instance index_le_total : Total index_le.
Proof. intros [a1 a2] [b1 b2]. unfold index_le. simpl. lia. Qed.

Global Instance index_le_trans : Transitive index_le.
Proof. intros [a1 a2] [b1 b2] [c1 c2]. unfold index_le. simpl. lia. Qed.

Global Instance index_le_antisymm : AntiSymm (=) index_le.
Proof.
  intros [a1 a2] [b1 b2]. unfold index_le. simpl. intros ? ?.
  f_equal; lia.
Qed.

Global Instance Z_le_total : Total Z.le.
Proof. intros a b. lia. Qed.

Global Instance Z_le_antisymm : AntiSymm (=) Z.le.
Proof. intros a b. lia. Qed.

(** ** Recall *)

Section recall.
Implicit Types actual pred : list Z.

Lemma length_zero_iff_set_empty actual :
  length actual = 0%nat ↔ size (list_to_set actual : gset Z) = 0%nat.
Proof.
  rewrite length_zero_iff_nil, size_empty_iff. split; [by intros ->|].
  intros Hempty. destruct actual as [|a actual]; [done|].
  assert (a ∈ (list_to_set (a :: actual) : gset Z)) as Hin
    by (apply elem_of_list_to_set; left).
  rewrite Hempty in Hin. by apply not_elem_of_empty in Hin.
Qed.

Lemma recall_score_empty pred : recall_score [] pred = 0%Q.
Proof. reflexivity. Qed.

Lemma recall_score_nonempty actual pred :
  actual ≠ [] →
  recall_score actual pred =
    (inject_Z (Z.of_nat (size ((list_to_set actual : gset Z) ∩ list_to_set pred)))
       / inject_Z (Z.of_nat (size (list_to_set actual : gset Z))))%Q.
Proof.
  intros Hne. unfold recall_score.
  destruct (decide (length actual = 0%nat)) as [Hlen|]; [|done].
  by apply length_zero_iff_nil in Hlen.
Qed.

Lemma size_pos_of_nonempty actual :
  actual ≠ [] → (0 < size (list_to_set actual : gset Z))%nat.
Proof.
  intros Hne.
  destruct (decide (size (list_to_set actual : gset Z) = 0%nat)) as [Hz|]; [|lia].
  apply length_zero_iff_set_empty, length_zero_iff_nil in Hz. done.
Qed.

Lemma Qdiv_le_same_den (a b n : Z) :
  a ≤ b → 0 < n → (inject_Z a / inject_Z n <= inject_Z b / inject_Z n)%Q.
Proof.
  intros Hab Hn. unfold Qdiv. apply Qmult_le_compat_r.
  - by rewrite <- Zle_Qle.
  - apply Qinv_le_0_compat. change 0%Q with (inject_Z 0).
    rewrite <- Zle_Qle. lia.
Qed.

Lemma recall_score_ext actual actual' pred pred' :
  (∀ x, x ∈ actual ↔ x ∈ actual') →
  (∀ x, x ∈ pred ↔ x ∈ pred') →
  recall_score actual pred = recall_score actual' pred'.
Proof.
  intros Ha Hp.
  assert ((list_to_set actual : gset Z) = list_to_set actual') as HA
    by (apply set_eq; intros x; rewrite !elem_of_list_to_set; apply Ha).
  assert ((list_to_set pred : gset Z) = list_to_set pred') as HP
    by (apply set_eq; intros x; rewrite !elem_of_list_to_set; apply Hp).
  unfold recall_score. rewrite HA, HP.
  destruct (decide (length actual = 0%nat)) as [H1|H1],
           (decide (length actual' = 0%nat)) as [H2|H2]; try done.
  - apply length_zero_iff_set_empty in H1. rewrite HA in H1.
    by apply length_zero_iff_set_empty in H1.
  - apply length_zero_iff_set_empty in H2. rewrite <- HA in H2.
    by apply length_zero_iff_set_empty in H2.
Qed.

(** C5: recall is |actual ∩ predicted| / |actual| when actual is not
    empty and 0 when it is; hence recall of the empty set is 0, recall
    of a non-empty set against itself is 1, and recall of {1,2,3}
    against {2,3,4,5} is 2/3. *)
Theorem recall_score_correct actual pred :
  let A : gset Z := list_to_set actual in
  let P : gset Z := list_to_set pred in
  ((0 < size A)%nat →
     recall_score actual pred
     = (inject_Z (Z.of_nat (size (A ∩ P))) / inject_Z (Z.of_nat (size A)))%Q) ∧
  (size A = 0%nat → recall_score actual pred = 0%Q) ∧
  recall_score [] pred = 0%Q ∧
  (actual ≠ [] → (recall_score actual actual == 1)%Q) ∧
  (recall_score [1; 2; 3]%Z [2; 3; 4; 5]%Z == 2 # 3)%Q.
Proof.
  intros A P. split; [|split; [|split; [|split]]].
  - intros Hpos. apply recall_score_nonempty. intros ->.
    unfold A in Hpos. by vm_compute in Hpos; lia.
  - intros Hz. apply length_zero_iff_set_empty, length_zero_iff_nil in Hz.
    by rewrite Hz.
  - reflexivity.
  - intros Hne. rewrite recall_score_nonempty by done.
    replace ((list_to_set actual : gset Z) ∩ list_to_set actual)
      with (list_to_set actual : gset Z)
      by (apply set_eq; intros x; rewrite elem_of_intersection; tauto).
    apply Qmult_inv_r. change 0%Q with (inject_Z 0).
    rewrite inject_Z_injective.
    pose proof (size_pos_of_nonempty actual Hne). lia.
  - by vm_compute.
Qed.

(** C9: for a fixed actual list, recall does not decrease when the
    predicted set grows. *)
Theorem recall_score_mono actual P1 P2 :
  (∀ x, x ∈ P1 → x ∈ P2) →
  (recall_score actual P1 <= recall_score actual P2)%Q.
Proof.
  intros Hsub. destruct actual as [|a actual]; [apply Qle_refl|].
  rewrite !recall_score_nonempty by done.
  apply Qdiv_le_same_den.
  - apply Nat2Z.inj_le, subseteq_size.
    intros x. rewrite !elem_of_intersection, !elem_of_list_to_set.
    intros [? ?]. split; [done | by apply Hsub].
  - assert (0 < size (list_to_set (a :: actual) : gset Z))%nat
      by (by apply size_pos_of_nonempty).
    lia.
Qed.

(** C10: recall depends on the sets of its two list arguments only:
    lists with the same elements give the same value, so permuting
    either list or repeating one of its elements changes nothing. *)
Theorem recall_score_set_invariant actual actual' pred pred' :
  ((∀ x, x ∈ actual ↔ x ∈ actual') → (∀ x, x ∈ pred ↔ x ∈ pred') →
     recall_score actual pred = recall_score actual' pred') ∧
  (actual ≡ₚ actual' → pred ≡ₚ pred' →
     recall_score actual pred = recall_score actual' pred') ∧
  (∀ a, a ∈ actual → recall_score (a :: actual) pred = recall_score actual pred) ∧
  (∀ p, p ∈ pred → recall_score actual (p :: pred) = recall_score actual pred).
Proof.
  repeat split.
  - apply recall_score_ext.
  - intros Ha Hp. apply recall_score_ext; intros x.
    + by rewrite Ha.
    + by rewrite Hp.
  - intros a Ha. apply recall_score_ext; [|done].
    intros x. rewrite elem_of_cons. split; [intros [->|?]; done | by right].
  - intros p Hp. apply recall_score_ext; [done|].
    intros x. rewrite elem_of_cons. split; [intros [->|?]; done | by right].
Qed.
End recall.

Lemma recall_score_correct_witness :
  recall_score [1; 2; 3] [2; 3; 4; 5]
  = (inject_Z (Z.of_nat (size ((list_to_set [1; 2; 3]%Z : gset Z)
                                 ∩ list_to_set [2; 3; 4; 5]%Z)))
       / inject_Z (Z.of_nat (size (list_to_set [1; 2; 3]%Z : gset Z))))%Q ∧
  (recall_score [7; 8]%Z [7; 8]%Z == 1)%Q.
Proof.
  split.
  - apply (proj1 (recall_score_correct [1; 2; 3] [2; 3; 4; 5])).
    vm_compute. lia.
  - apply (proj1 (proj2 (proj2 (proj2 (recall_score_correct [7; 8] []))))).
    discriminate.
Defined.

Lemma recall_score_mono_witness :
  (recall_score [1; 2; 3]%Z [2]%Z <= recall_score [1; 2; 3]%Z [2; 3; 4; 5]%Z)%Q.
Proof.
  apply (recall_score_mono [1; 2; 3] [2] [2; 3; 4; 5]).
  intros x Hx. apply list_elem_of_singleton in Hx as ->. left.
Defined.

Lemma recall_score_set_invariant_witness :
  recall_score [1; 2; 3] [2; 3; 4; 5] = recall_score [2; 1; 3] [3; 2; 4; 5] ∧
  recall_score [3; 1; 2; 3] [2; 3; 4; 5] = recall_score [1; 2; 3] [2; 3; 4; 5] ∧
  recall_score [1; 2; 3] [4; 2; 3; 4; 5] = recall_score [1; 2; 3] [2; 3; 4; 5].
Proof.
  split; [|split].
  - apply (proj1 (proj2 (recall_score_set_invariant
                           [1; 2; 3] [2; 1; 3] [2; 3; 4; 5] [3; 2; 4; 5])));
      apply perm_swap.
  - apply (proj1 (proj2 (proj2 (recall_score_set_invariant
                                  [1; 2; 3] [] [2; 3; 4; 5] [])))).
    do 2 right. left.
  - apply (proj2 (proj2 (proj2 (recall_score_set_invariant
                                  [1; 2; 3] [] [2; 3; 4; 5] [])))).
    do 2 right. left.
Defined.

(** ** Index maps *)

Section index_maps.
Implicit Types cats col : list Z.

Lemma enumerate_snoc {A} (l : list A) x :
  enumerate (l ++ [x]) = enumerate l ++ [(length l, x)].
Proof.
  unfold enumerate. rewrite imap_app. simpl.
  by rewrite Nat.add_0_r.
Qed.

Lemma make_p_dict_lookup cats (i : nat) : make_p_dict cats !! i = cats !! i.
Proof.
  unfold make_p_dict. induction cats as [|x l IH] using rev_ind.
  - done.
  - rewrite enumerate_snoc, foldl_app. simpl.
    destruct (decide (i = length l)) as [->|Hne].
    + rewrite lookup_insert_eq. by rewrite list_lookup_middle.
    + rewrite lookup_insert_ne by done. rewrite IH.
      destruct (decide (i < length l)%nat).
      * by rewrite lookup_app_l.
      * rewrite !lookup_ge_None_2; [done| |lia].
        rewrite length_app. simpl. lia.
Qed.

Lemma make_u_dict_lookup cats (uid : Z) (i : nat) :
  NoDup cats → make_u_dict cats !! uid = Some i ↔ cats !! i = Some uid.
Proof.
  unfold make_u_dict. induction cats as [|x l IH] using rev_ind; intros Hnd.
  - done.
  - apply NoDup_app in Hnd as (Hl & Hx & _).
    rewrite enumerate_snoc, foldl_app. simpl.
    destruct (decide (uid = x)) as [->|Hne].
    + rewrite lookup_insert_eq. split.
      * intros [= <-]. by rewrite list_lookup_middle.
      * intros Hi. f_equal.
        destruct (decide (i < length l)%nat) as [Hlt|Hge].
        -- rewrite lookup_app_l in Hi by done.
           apply list_elem_of_lookup_2 in Hi. destruct (Hx x Hi). left.
        -- apply lookup_lt_Some in Hi. rewrite length_app in Hi.
           simpl in Hi. lia.
    + rewrite lookup_insert_ne by done. rewrite (IH Hl). split.
      * intros Hi. by apply lookup_app_l_Some.
      * intros Hi. apply lookup_app_Some in Hi as [Hi|[_ Hi]]; [done|].
        apply list_lookup_singleton_Some in Hi as [_ ?]. congruence.
Qed.

Lemma categories_strictly_ascending col :
  StronglySorted Z.lt (categories col).
Proof.
  pose proof (KeysFacts.StronglySorted_NoDup_strict Z.le _
    (KeysFacts.StronglySorted_unique_sorted Z.le col)
    (KeysFacts.NoDup_unique_sorted Z.le col)) as Hs.
  fold (categories col) in Hs.
  induction Hs as [|x l Hl IH Hx]; constructor; [done|].
  eapply Forall_impl; [exact Hx|]. intros y [? ?]. lia.
Qed.
End index_maps.

(** C8: the user and item index maps number the distinct ids in
    ascending order from zero without gaps; a rebuild over the same ids
    gives the same maps; and decoding the index of an id gives the id
    back. *)
Theorem index_maps_sorted_bijective (df df' : list user_product_row) :
  let users := categories (user_id <$> df) in
  let items := categories (product_id <$> df) in
  (StronglySorted Z.lt users ∧ StronglySorted Z.lt items) ∧
  (∀ x, (x ∈ users ↔ x ∈ user_id <$> df) ∧ (x ∈ items ↔ x ∈ product_id <$> df)) ∧
  (∀ uid (i : nat), make_u_dict users !! uid = Some i ↔ users !! i = Some uid) ∧
  (∀ i : nat, make_p_dict items !! i = items !! i) ∧
  (∀ i : nat, ((i < length users)%nat ↔ ∃ uid, make_u_dict users !! uid = Some i) ∧
              ((i < length items)%nat ↔ is_Some (make_p_dict items !! i))) ∧
  (∀ r, r ∈ df →
     ∃ i j : nat,
       Keys.code_of users (user_id r) = Z.of_nat i ∧
       make_u_dict users !! user_id r = Some i ∧
       users !! i = Some (user_id r) ∧
       Keys.code_of items (product_id r) = Z.of_nat j ∧
       make_p_dict items !! j = Some (product_id r)) ∧
  ((∀ x, x ∈ user_id <$> df ↔ x ∈ user_id <$> df') →
     make_u_dict (categories (user_id <$> df')) = make_u_dict users) ∧
  ((∀ x, x ∈ product_id <$> df ↔ x ∈ product_id <$> df') →
     make_p_dict (categories (product_id <$> df')) = make_p_dict items).
Proof.
  intros users items.
  assert (NoDup users) as Hnd by apply KeysFacts.NoDup_unique_sorted.
  assert (∀ uid (i : nat), make_u_dict users !! uid = Some i ↔ users !! i = Some uid)
    as Hu by (intros; by apply make_u_dict_lookup).
  split; [split; apply categories_strictly_ascending|].
  split; [intros x; split; apply (KeysFacts.elem_of_unique_sorted Z.le)|].
  split; [exact Hu|].
  split; [apply make_p_dict_lookup|].
  split.
  { intros i. split.
    - rewrite <- lookup_lt_is_Some. split.
      + intros [uid Hi]. exists uid. by apply Hu.
      + intros [uid Hi]. exists uid. by apply Hu.
    - rewrite make_p_dict_lookup. symmetry. apply lookup_lt_is_Some. }
  split.
  { intros r Hr.
    destruct (KeysFacts.code_of_lookup users (user_id r)) as (i & Hci & Hi).
    { apply (KeysFacts.elem_of_unique_sorted Z.le), list_elem_of_fmap.
      by exists r. }
    destruct (KeysFacts.code_of_lookup items (product_id r)) as (j & Hcj & Hj).
    { apply (KeysFacts.elem_of_unique_sorted Z.le), list_elem_of_fmap.
      by exists r. }
    exists i, j. rewrite make_p_dict_lookup.
    repeat split; try done. by apply Hu. }
  split.
  - intros Hext. unfold users, categories.
    by rewrite (KeysFacts.unique_sorted_ext Z.le _ _ Hext).
  - intros Hext. unfold items, categories.
    by rewrite (KeysFacts.unique_sorted_ext Z.le _ _ Hext).
Qed.

Lemma index_maps_sorted_bijective_witness :
  ∃ i j : nat,
    Keys.code_of (categories (user_id <$> Sample.df_user_product_prior)) 1
    = Z.of_nat i ∧
    make_u_dict (categories (user_id <$> Sample.df_user_product_prior)) !! 1
    = Some i ∧
    categories (user_id <$> Sample.df_user_product_prior) !! i = Some 1 ∧
    Keys.code_of (categories (product_id <$> Sample.df_user_product_prior)) 196
    = Z.of_nat j ∧
    make_p_dict (categories (product_id <$> Sample.df_user_product_prior)) !! j
    = Some 196.
Proof.
  apply (proj1 (proj2 (proj2 (proj2 (proj2 (proj2
           (index_maps_sorted_bijective Sample.df_user_product_prior []))))))
           {| user_id := 1; product_id := 196; quantity := 2 |}).
  right. left.
Defined.

(** ** Aggregation of the prior orders *)

Section aggregation.
Implicit Types (pairs : list (Z * Z)) (orders : list order_row)
  (ops : list order_product_row).

Lemma groupby_size_keys pairs :
  (λ r, (user_id r, product_id r)) <$> groupby_size pairs
  = Keys.unique_sorted pair_le pairs.
Proof.
  unfold groupby_size. rewrite <- list_fmap_compose.
  rewrite <- (list_fmap_id (Keys.unique_sorted pair_le pairs)) at 2.
  apply list_fmap_ext. by intros _ [u p] _.
Qed.

Lemma elem_of_groupby_size pairs r :
  r ∈ groupby_size pairs ↔
  (user_id r, product_id r) ∈ pairs ∧
  quantity r = Z.of_nat (Keys.occurrences (user_id r, product_id r) pairs).
Proof.
  unfold groupby_size. rewrite list_elem_of_fmap. split.
  - intros ([u p] & -> & Hk). simpl.
    rewrite (KeysFacts.elem_of_unique_sorted pair_le) in Hk. by split.
  - intros [Hk Hq]. exists (user_id r, product_id r). split.
    + destruct r as [u p q]. simpl in *. by rewrite Hq.
    + by apply (KeysFacts.elem_of_unique_sorted pair_le).
Qed.

Lemma occurrences_app {K} `{EqDecision K} (x : K) (l1 l2 : list K) :
  Keys.occurrences x (l1 ++ l2)
  = (Keys.occurrences x l1 + Keys.occurrences x l2)%nat.
Proof. unfold Keys.occurrences. by rewrite filter_app, length_app. Qed.

(** the lines of one order: what they contribute to a pair *)
Lemma occurrences_order_lines (o : order_row) ops (u p : Z) :
  Keys.occurrences (u, p)
    (l ← filter (λ l, op_order_id l = o_order_id o) ops;
     [(o_user_id o, op_product_id l)])
  = if decide (o_user_id o = u)
    then length (filter (λ l, op_order_id l = o_order_id o ∧ op_product_id l = p) ops)
    else 0%nat.
Proof.
  induction ops as [|l ops IH]; [by destruct (decide _)|].
  rewrite !filter_cons.
  destruct (decide (op_order_id l = o_order_id o)) as [Ho|Ho].
  - rewrite bind_cons.
    rewrite occurrences_app, IH. unfold Keys.occurrences. simpl.
    rewrite filter_cons, filter_nil.
    destruct (decide (o_user_id o = u)) as [Hu|Hu].
    + destruct (decide (op_product_id l = p)) as [Hp|Hp].
      * rewrite !decide_True by (done || congruence). done.
      * rewrite !decide_False by (intuition congruence). done.
    + rewrite decide_False by congruence. done.
  - rewrite IH. destruct (decide (o_user_id o = u)); [|done].
    rewrite decide_False by tauto. done.
Qed.

Lemma occurrences_merge orders ops (u p : Z) :
  Keys.occurrences (u, p) (merge_on_order_id orders ops)
  = sum_list ((λ o, length (filter (λ l, op_order_id l = o_order_id o
                                        ∧ op_product_id l = p) ops))
                <$> filter (λ o, o_user_id o = u) orders).
Proof.
  unfold merge_on_order_id. induction orders as [|o orders IH]; [done|].
  rewrite !bind_cons.
  rewrite occurrences_app, IH, occurrences_order_lines, filter_cons.
  by destruct (decide (o_user_id o = u)).
Qed.

(** the join reads the two selected columns of the order lines only *)
Lemma merge_on_order_id_columns orders ops ops' :
  (λ l, (op_order_id l, op_product_id l)) <$> ops'
  = (λ l, (op_order_id l, op_product_id l)) <$> ops →
  merge_on_order_id orders ops' = merge_on_order_id orders ops.
Proof.
  intros Hcols. unfold merge_on_order_id.
  induction orders as [|o orders IH]; [done|].
  rewrite !bind_cons.
  rewrite IH. f_equal. clear IH.
  revert ops' Hcols. induction ops as [|l ops IH]; intros [|l' ops'] Hcols;
    try done.
  injection Hcols as Ho Hp Hrest.
  rewrite !filter_cons, Ho.
  destruct (decide (op_order_id l = o_order_id o)).
  - rewrite !bind_cons.
    rewrite Hp. f_equal. by apply IH.
  - by apply IH.
Qed.
End aggregation.

(** ** Integer widths *)

Lemma wrap64_small (z : Z) : - 2 ^ 63 ≤ z < 2 ^ 63 → wrap64 z = z.
Proof. intros Hz. unfold wrap64. rewrite Z.mod_small; lia. Qed.

Lemma astype_double_exact (z : Z) : Z.abs z ≤ 2 ^ 53 → astype_double z = z.
Proof.
  intros Hz. unfold astype_double.
  destruct (Z.leb_spec (Z.abs z) (2 ^ 53)); [done | lia].
Qed.

(** ** Confidence matrix *)

(** C1 (as the code has it): every stored entry of the matrix handed to
    the model holds alpha * r for the raw count r stored at the same
    place, exactly whenever that product has at most 53 bits; with alpha
    = 15 and r = 10 it holds 150. *)
Theorem confidence_matrix_scales_counts (m : sparse_matrix) (alpha : Z) :
  shape (confidence_matrix m alpha) = shape m ∧
  length (entries (confidence_matrix m alpha)) = length (entries m) ∧
  (∀ (k i u : nat) (r : Z),
     entries m !! k = Some ((i, u), r) →
     entries (confidence_matrix m alpha) !! k
     = Some ((i, u), astype_double (wrap64 (r * alpha))) ∧
     (Z.abs (alpha * r) ≤ 2 ^ 53 →
      entries (confidence_matrix m alpha) !! k = Some ((i, u), alpha * r))) ∧
  entries (confidence_matrix Sample.ten_purchases 15) = [((0%nat, 0%nat), 150)].
Proof.
  split; [done|]. split; [apply length_fmap|]. split; [|done].
  intros k i u r Hk.
  assert (entries (confidence_matrix m alpha) !! k
          = Some ((i, u), astype_double (wrap64 (r * alpha)))) as Hc.
  { unfold confidence_matrix. simpl. rewrite list_lookup_fmap, Hk. done. }
  split; [done|]. intros Hsmall. rewrite Hc. do 2 f_equal.
  rewrite wrap64_small by lia. rewrite astype_double_exact by lia. lia.
Qed.

Lemma confidence_matrix_scales_counts_witness :
  entries (confidence_matrix Sample.ten_purchases 15) !! 0%nat
  = Some ((0%nat, 0%nat), 15 * 10).
Proof.
  apply (proj2 (proj1 (proj2 (proj2
           (confidence_matrix_scales_counts Sample.ten_purchases 15)))
           0%nat 0%nat 0%nat 10 eq_refl)).
  vm_compute. discriminate.
Defined.

(** C1 (as stated) fails: with alpha = 15 and a raw count of 10 the stored
    confidence is 150, not 1 + 15 * 10 = 151. *)
Lemma confidence_is_not_one_plus_alpha_r :
  entries (confidence_matrix Sample.ten_purchases 15) = [((0%nat, 0%nat), 150)] ∧
  ¬ (∀ (m : sparse_matrix) (alpha : Z) (k i u : nat) (r : Z),
       entries m !! k = Some ((i, u), r) →
       entries (confidence_matrix m alpha) !! k = Some ((i, u), 1 + alpha * r)).
Proof.
  split; [done|]. intros Hall.
  specialize (Hall Sample.ten_purchases 15 0%nat 0%nat 0%nat 10 eq_refl).
  vm_compute in Hall. discriminate.
Qed.

(** ** Utility matrix *)

Section builder.
Implicit Types (df : list user_product_row) (col : list Z).

Lemma cat_codes_lookup col (k : nat) x :
  col !! k = Some x →
  ∃ i : nat, cat_codes col !! k = Some (Z.of_nat i) ∧ categories col !! i = Some x.
Proof.
  intros Hk. unfold cat_codes. rewrite list_lookup_fmap, Hk. simpl.
  destruct (KeysFacts.code_of_lookup (categories col) x) as (i & -> & Hi).
  - apply (KeysFacts.elem_of_unique_sorted Z.le).
    by eapply list_elem_of_lookup_2.
  - by exists i.
Qed.

Lemma cat_codes_nonneg col : ¬ Exists (λ c, c < 0) (cat_codes col).
Proof.
  rewrite Exists_exists. intros (c & Hc & Hneg).
  apply list_elem_of_lookup in Hc as [k Hk].
  assert (is_Some (col !! k)) as [x Hx].
  { apply lookup_lt_is_Some. apply lookup_lt_Some in Hk.
    unfold cat_codes in Hk. by rewrite length_fmap in Hk. }
  destruct (cat_codes_lookup col k x Hx) as (i & Hi & _).
  rewrite Hk in Hi. injection Hi as ->. lia.
Qed.

Lemma zip_columns {A B C D} (f : A → B) (g : A → C) (h : A → D) (l : list A) :
  zip (zip (f <$> l) (g <$> l)) (h <$> l) = (λ a, ((f a, g a), h a)) <$> l.
Proof. induction l as [|a l IH]; [done|]. rewrite !fmap_cons. simpl. by f_equal. Qed.

Lemma build_product_user_matrix_Ok df :
  df ≠ [] →
  let items := categories (product_id <$> df) in
  let users := categories (user_id <$> df) in
  let row r := Z.to_nat (Keys.code_of items (product_id r)) in
  let col r := Z.to_nat (Keys.code_of users (user_id r)) in
  build_product_user_matrix df
  = Ok {| shape := (S (max_list (row <$> df)), S (max_list (col <$> df)));
          entries := (λ r, ((row r, col r), quantity r)) <$> df |}.
Proof.
  intros Hne items users row col. unfold build_product_user_matrix, coo_matrix.
  rewrite decide_False.
  2:{ unfold cat_codes. intros [H|H];
      apply fmap_nil_inv, fmap_nil_inv in H; done. }
  rewrite decide_False.
  2:{ intros [H|H]; by apply cat_codes_nonneg in H. }
  unfold cat_codes. rewrite <- !list_fmap_compose.
  do 2 f_equal. apply (zip_columns row col quantity df).
Qed.

Lemma build_product_user_matrix_Raise df e :
  build_product_user_matrix df = Raise e → df = [] ∧ e = "ValueError"%string.
Proof.
  destruct df as [|r df].
  - vm_compute. by intros [= <-].
  - by rewrite build_product_user_matrix_Ok.
Qed.
End builder.

(** ** Evaluation errors *)

Section evaluation_errors.
Context (nb : notebook).

Lemma dict_get_Ok `{Countable K} {V} (d : gmap K V) k v :
  dict_get d k = Ok v ↔ d !! k = Some v.
Proof. unfold dict_get. destruct (d !! k); split; congruence. Qed.

Lemma dict_get_Raise `{Countable K} {V} (d : gmap K V) k e :
  dict_get d k = Raise e ↔ d !! k = None ∧ e = "KeyError"%string.
Proof.
  unfold dict_get. destruct (d !! k); split; try congruence.
  - by intros [? _].
  - by intros [= <-].
  - by intros [_ ->].
Qed.


Lemma mapM_dict_get_Raise {A} `{Countable K} {V} (d : gmap K V) (f : A → K)
    (l : list A) e :
  mapM (λ a, dict_get d (f a)) l = Raise e → e = "KeyError"%string.
Proof.
  induction l as [|a l IH]; [done|]. simpl.
  destruct (dict_get d (f a)) as [w|] eqn:Ha; simpl.
  - destruct (mapM _ l) as [ws|] eqn:Hl; [done|]. simpl.
    intros [= <-]. by apply IH.
  - intros [= <-]. by apply dict_get_Raise in Ha as [_ ->].
Qed.

Lemma mapM_result_Raise_only {A B} (f : A → result B) (l : list A) (e0 e : string) :
  (∀ a e', f a = Raise e' → e' = e0) → mapM f l = Raise e → e = e0.
Proof.
  intros Hf. induction l as [|a l IH]; [done|]. simpl.
  destruct (f a) as [b|e'] eqn:Ha; simpl.
  - destruct (mapM f l) as [bs|e'']; [done|]. simpl.
    intros [= <-]. by apply IH.
  - intros [= <-]. by apply (Hf a).
Qed.

Lemma py_int_Raise s e : py_int s = Raise e → e = "ValueError"%string.
Proof.
  unfold py_int. destruct (strip s) as [|c body]; [by intros [= <-]|].
  repeat case_decide; destruct (int_digits _ _ _); by intros [= <-].
Qed.

Lemma parse_products_Raise cell e :
  parse_products cell = Raise e → e = "ValueError"%string.
Proof.
  unfold parse_products. apply mapM_result_Raise_only.
  intros p e'. apply py_int_Raise.
Qed.


Lemma new_products_Ok row actual :
  new_products nb row = Ok actual →
  ∃ products u indices liked,
    parse_products (t_products row) = Ok products ∧
    u_dict nb !! t_user_id row = Some u ∧
    row_indices (user_product_matrix nb) u = Ok indices ∧
    mapM (dict_get (p_dict nb)) indices = Ok liked ∧
    actual = list_to_set products ∖ list_to_set liked.
Proof.
  unfold new_products.
  destruct (parse_products (t_products row)) as [products|] eqn:Hp; [|done].
  simpl.
  destruct (dict_get (u_dict nb) (t_user_id row)) as [u|] eqn:Hu; [|done].
  simpl. destruct (row_indices _ u) as [indices|] eqn:Hi; [|done]. simpl.
  destruct (mapM _ indices) as [liked|] eqn:Hl; [|done]. simpl.
  intros [= <-]. exists products, u, indices, liked.
  by apply dict_get_Ok in Hu.
Qed.

Lemma new_products_ValueError row :
  new_products nb row = Raise "ValueError" →
  parse_products (t_products row) = Raise "ValueError".
Proof.
  unfold new_products.
  destruct (parse_products (t_products row)) as [products|e'] eqn:Hp; simpl.
  2:{ by intros [= ->]. }
  destruct (dict_get (u_dict nb) (t_user_id row)) as [u|] eqn:Hu; simpl.
  - unfold row_indices. destruct (decide _); simpl; [|done].
    destruct (mapM _ _) as [liked|] eqn:Hl; [done|]. simpl.
    by apply (mapM_dict_get_Raise (p_dict nb) id) in Hl as ->.
  - by apply dict_get_Raise in Hu as [_ ->].
Qed.

Lemma new_products_Raise row e :
  new_products nb row = Raise e →
  e = "ValueError"%string ∨ e = "KeyError"%string ∨ e = "IndexError"%string.
Proof.
  unfold new_products.
  destruct (parse_products (t_products row)) as [products|e'] eqn:Hp; simpl.
  2:{ intros [= <-]. left. by apply parse_products_Raise in Hp. }
  intros He. right. revert He.
  destruct (dict_get (u_dict nb) (t_user_id row)) as [u|] eqn:Hu; simpl.
  - unfold row_indices. destruct (decide _); simpl.
    + destruct (mapM _ _) as [liked|] eqn:Hl; [done|]. simpl.
      intros [= <-]. left.
      by apply (mapM_dict_get_Raise (p_dict nb) id) in Hl.
    + intros [= <-]. by right.
  - intros [= <-]. left. by apply dict_get_Raise in Hu as [_ ->].
Qed.
End evaluation_errors.

(** ** New products on the notebook's own globals *)

Section pipeline.
Implicit Types (m : sparse_matrix) (df : list user_product_row).

Lemma tocsr_keys m (k : nat * nat) :
  k ∈ (entries (tocsr m)).*1 ↔ k ∈ (entries m).*1.
Proof.
  unfold tocsr. simpl. rewrite <- list_fmap_compose.
  set (keys := Keys.unique_sorted index_le (entries m).*1).
  rewrite <- (KeysFacts.elem_of_unique_sorted index_le (entries m).*1). fold keys.
  rewrite <- (list_fmap_id keys) at 2.
  by rewrite (list_fmap_ext _ id keys).
Qed.

Lemma transpose_keys m (i j : nat) :
  (i, j) ∈ (entries (transpose m)).*1 ↔ (j, i) ∈ (entries m).*1.
Proof.
  unfold transpose. simpl. rewrite !list_elem_of_fmap. split.
  - intros (e' & He' & (e & -> & He)%list_elem_of_fmap). simpl in He'.
    injection He' as -> ->. exists e. by destruct e as [[? ?] ?].
  - intros ([[j' i'] v] & [= -> ->] & He).
    exists ((i', j'), v). split; [done|].
    apply list_elem_of_fmap. by exists ((j', i'), v).
Qed.

Lemma elem_of_row_indices m (i : nat) indices :
  row_indices m i = Ok indices →
  ∀ j, j ∈ indices ↔ (i, j) ∈ (entries m).*1.
Proof.
  unfold row_indices. destruct (decide _); [|done]. intros [= <-] j.
  rewrite !list_elem_of_fmap. split.
  - intros ([[i' j'] v] & -> & [Hi He]%list_elem_of_filter). simpl in Hi.
    subst i'. by exists ((i, j'), v).
  - intros ([[i' j'] v] & [= -> ->] & He). exists ((i', j'), v).
    split; [done|]. by apply list_elem_of_filter.
Qed.

Lemma mapM_dict_get_total `{Countable K} {V} (d : gmap K V) (ks : list K) :
  (∀ k, k ∈ ks → is_Some (d !! k)) →
  ∃ vs, mapM (dict_get d) ks = Ok vs ∧
        ∀ v, v ∈ vs ↔ ∃ k, k ∈ ks ∧ d !! k = Some v.
Proof.
  induction ks as [|k ks IH]; intros Hks.
  - exists []. split; [done|]. intros v. split.
    + by intros ?%elem_of_nil.
    + by intros (k & ?%elem_of_nil & _).
  - destruct (Hks k) as [w Hw]; [left|].
    destruct IH as (ws & Hws & Hiff); [intros k' ?; apply Hks; by right|].
    exists (w :: ws). split.
    + apply dict_get_Ok in Hw. simpl. rewrite Hw. simpl. by rewrite Hws.
    + intros v. rewrite elem_of_cons, Hiff. split.
      * intros [->|(k' & ? & ?)]; [exists k; split; [left|done]|].
        exists k'. split; [by right|done].
      * intros (k' & [->|?]%elem_of_cons & Hk'); [left; congruence|].
        right. by exists k'.
Qed.

(** On the globals the notebook computes, a row of a user known to the
    training data yields the basket products the user has not bought
    before, whatever the basket read from the cell holds. *)
Lemma new_products_run_notebook orders ops products model nb row (u : nat) basket :
  run_notebook orders ops products model = Ok nb →
  parse_products (t_products row) = Ok basket →
  u_dict nb !! t_user_id row = Some u →
  ∃ actual,
    new_products nb row = Ok actual ∧
    ∀ p, p ∈ actual ↔
         p ∈ basket ∧
         ¬ ∃ r, r ∈ get_user_product_prior_df orders ops ∧
                user_id r = t_user_id row ∧ product_id r = p.
Proof.
  unfold run_notebook.
  set (df := get_user_product_prior_df orders ops).
  destruct df as [|r0 df'] eqn:Hdf; [done|]. rewrite <- Hdf.
  rewrite build_product_user_matrix_Ok by (by rewrite Hdf).
  set (items := categories (product_id <$> df)).
  set (users := categories (user_id <$> df)).
  set (row_of := λ r, Z.to_nat (Keys.code_of items (product_id r))).
  set (col_of := λ r, Z.to_nat (Keys.code_of users (user_id r))).
  set (m := {| shape := _; entries := _ |}).
  simpl. intros [= <-]. simpl. intros Hparse Hu.
  assert (NoDup users) as Hnd by apply KeysFacts.NoDup_unique_sorted.
  apply make_u_dict_lookup in Hu; [|done]. fold users in Hu.
  assert (∀ r, r ∈ df →
            items !! row_of r = Some (product_id r)
            ∧ users !! col_of r = Some (user_id r)) as Hcodes.
  { intros r Hr. unfold row_of, col_of.
    destruct (KeysFacts.code_of_lookup items (product_id r)) as (i & -> & Hi).
    { apply (KeysFacts.elem_of_unique_sorted Z.le), list_elem_of_fmap.
      by exists r. }
    destruct (KeysFacts.code_of_lookup users (user_id r)) as (j & -> & Hj).
    { apply (KeysFacts.elem_of_unique_sorted Z.le), list_elem_of_fmap.
      by exists r. }
    by rewrite !Nat2Z.id. }
  assert (∀ i j, (i, j) ∈ (entries m).*1 ↔ ∃ r, r ∈ df ∧ row_of r = i ∧ col_of r = j)
    as Hkeys.
  { intros i j. unfold m. simpl. rewrite <- list_fmap_compose.
    rewrite list_elem_of_fmap. split.
    - intros (r & [= -> ->] & Hr). by exists r.
    - intros (r & Hr & <- & <-). by exists r. }
  assert (∃ r, r ∈ df ∧ col_of r = u) as (ru & Hru & Hcol).
  { apply list_elem_of_lookup_2 in Hu as Hin.
    apply (KeysFacts.elem_of_unique_sorted Z.le), list_elem_of_fmap in Hin
      as (r & Hr1 & Hr2).
    exists r. split; [done|].
    destruct (Hcodes r Hr2) as [_ Hc]. rewrite <- Hr1 in Hc.
    by eapply NoDup_lookup. }
  assert (dict_get (make_u_dict users) (t_user_id row) = Ok u) as Hget
    by (by apply dict_get_Ok, make_u_dict_lookup).
  unfold new_products. cbn [u_dict p_dict user_product_matrix].
  fold df users items. rewrite Hparse. simpl. rewrite Hget. simpl.
  set (upm := tocsr (transpose (tocsr m))).
  assert (u < (shape upm).1)%nat as Hshape.
  { unfold upm, m. simpl. apply Nat.lt_succ_r, max_list_elem_of_le.
    rewrite <- Hcol. by apply list_elem_of_fmap_2. }
  destruct (row_indices upm u) as [indices|] eqn:Hrow.
  2:{ unfold row_indices in Hrow. by rewrite decide_True in Hrow. }
  simpl.
  assert (∀ j, j ∈ indices ↔ ∃ r, r ∈ df ∧ row_of r = j ∧ col_of r = u) as Hidx.
  { intros j. rewrite (elem_of_row_indices _ _ _ Hrow j). unfold upm.
    by rewrite tocsr_keys, transpose_keys, tocsr_keys, Hkeys. }
  destruct (mapM_dict_get_total (make_p_dict items) indices) as (liked & -> & Hliked).
  { intros j (r & Hr & <- & _)%Hidx. rewrite make_p_dict_lookup.
    destruct (Hcodes r Hr) as [-> _]. by eexists. }
  simpl. eexists. split; [done|]. intros p.
  rewrite elem_of_difference, !elem_of_list_to_set, Hliked.
  apply and_iff_compat_l, not_iff_compat. split.
  - intros (j & (r & Hr & <- & Hc)%Hidx & Hj). rewrite make_p_dict_lookup in Hj.
    destruct (Hcodes r Hr) as [Hp Huid]. exists r. split; [done|].
    rewrite Hc in Huid. split; congruence.
  - intros (r & Hr & Huid & <-). destruct (Hcodes r Hr) as [Hp Hc].
    exists (row_of r). split.
    + apply Hidx. exists r. split; [done|]. split; [done|].
      rewrite Huid in Hc. by eapply NoDup_lookup.
    + by rewrite make_p_dict_lookup.
Qed.
End pipeline.

(** the notebook's check of the built matrix, on the sample: user 1
    (column 0) bought product 196 (row 2) twice *)
Example product_user_matrix_sample :
  (m ← build_product_user_matrix Sample.df_user_product_prior;
   getitem (tocsr m) 2 0) = Ok 2.
Proof. by vm_compute. Qed.

Example run_notebook_sample :
  run_notebook Sample.df_orders Sample.df_order_products_prior
    Sample.df_products Sample.model = Ok Sample.globals.
Proof. by vm_compute. Qed.

(** the text of an empty list is not a list of integers *)
Example parse_products_empty_list : parse_products "[]" = Raise "ValueError".
Proof. by vm_compute. Qed.

Example parse_products_sample :
  parse_products "[77, 50, 999]" = Ok [77; 50; 999] ∧
  parse_products "[ 1_000,+2 ,  -3 ]" = Ok [1000; 2; -3] ∧
  parse_products "[1,,2]" = Raise "ValueError" ∧
  parse_products "[1, 2,]" = Raise "ValueError" ∧
  parse_products "[1.0]" = Raise "ValueError" ∧
  parse_products "" = Raise "ValueError" ∧
  parse_products "(12)" = Ok [12].
Proof. repeat split; by vm_compute. Qed.




(** ** Stable sort *)

Section sorting.
Context {A : Type} (R : relation A) `{∀ x y, Decision (R x y)}.

Lemma insert_sorted_Permutation (x : A) (l : list A) :
  insert_sorted R x l ≡ₚ x :: l.
Proof.
  induction l as [|y l IH]; [done|]. simpl.
  destruct (decide (R x y)); [done|]. rewrite IH. apply Permutation_swap.
Qed.

Lemma stable_sort_Permutation (l : list A) : stable_sort R l ≡ₚ l.
Proof.
  induction l as [|x l IH]; [done|]. unfold stable_sort in *. simpl.
  by rewrite insert_sorted_Permutation, IH.
Qed.

Context `{!Total R} `{!Transitive R}.

Lemma StronglySorted_insert_sorted (x : A) (l : list A) :
  StronglySorted R l → StronglySorted R (insert_sorted R x l).
Proof.
  induction 1 as [|y l Hl IH Hy]; simpl; [repeat constructor|].
  destruct (decide (R x y)) as [Hxy|Hxy].
  - constructor; [by constructor|]. constructor; [done|].
    eapply Forall_impl; [exact Hy|]. intros z Hyz. by etrans.
  - constructor; [done|]. rewrite insert_sorted_Permutation.
    constructor; [|done]. by destruct (total R x y).
Qed.

Lemma StronglySorted_stable_sort (l : list A) : StronglySorted R (stable_sort R l).
Proof.
  induction l as [|x l IH]; [constructor|]. unfold stable_sort in *. simpl.
  by apply StronglySorted_insert_sorted.
Qed.
End sorting.

Lemma first_seen_Permutation (col : list Z) : first_seen col ≡ₚ remove_dups col.
Proof.
  unfold first_seen. rewrite reverse_Permutation.
  apply NoDup_Permutation; [apply NoDup_remove_dups..|].
  intros x. by rewrite !elem_of_remove_dups, elem_of_reverse.
Qed.

(** ** Popularity baseline *)

Global Instance count_ge_total col : Total (count_ge col).
Proof. intros a b. unfold count_ge. lia. Qed.

Global Instance count_ge_trans col : Transitive (count_ge col).
Proof. intros a b c. unfold count_ge. lia. Qed.

Section popularity.
Implicit Types (col : list Z)
  (df : list (order_product_row * option product_row)).

Lemma value_counts_keys col :
  (value_counts col).*1 = stable_sort (count_ge col) (first_seen col).
Proof.
  unfold value_counts. rewrite <- list_fmap_compose.
  rewrite <- (list_fmap_id (stable_sort _ _)) at 2.
  by apply list_fmap_ext.
Qed.

Lemma value_counts_keys_Permutation col :
  stable_sort (count_ge col) (first_seen col) ≡ₚ remove_dups col.
Proof. by rewrite stable_sort_Permutation, first_seen_Permutation. Qed.

Lemma get_k_popular_take k df :
  get_k_popular k df
  = take k (stable_sort (count_ge ((λ r, op_product_id r.1) <$> df))
              (first_seen ((λ r, op_product_id r.1) <$> df))).
Proof. unfold get_k_popular. by rewrite fmap_take, value_counts_keys. Qed.

(** products with the same count come in the order they first appear *)
Example value_counts_ties :
  value_counts [50; 77; 77; 196; 50; 13]
  = [(50, 2%nat); (77, 2%nat); (196, 1%nat); (13, 1%nat)].
Proof. by vm_compute. Qed.

(** a product table without repeated ids leaves the order lines as
    they are: one merged row per line *)
Lemma merge_products_left_column (ops : list order_product_row)
    (products : list product_row) :
  NoDup (p_product_id <$> products) →
  (λ r, op_product_id r.1) <$> merge_products_left ops products
  = op_product_id <$> ops.
Proof.
  intros Hnd. unfold merge_products_left.
  induction ops as [|l ops IH]; [done|].
  rewrite bind_cons, fmap_app, IH. simpl. f_equal.
  assert (length (filter (λ p, p_product_id p = op_product_id l) products) ≤ 1)%nat
    as Hlen.
  { clear IH. induction products as [|p ps IHp]; [simpl; lia|].
    rewrite fmap_cons in Hnd. apply NoDup_cons in Hnd as [Hp Hps].
    rewrite filter_cons. destruct (decide _) as [Heq|]; [|by apply IHp].
    simpl. destruct (filter _ ps) as [|q qs] eqn:Hf; [simpl; lia|].
    assert (q ∈ filter (λ p, p_product_id p = op_product_id l) ps) as Hq
      by (rewrite Hf; left).
    apply list_elem_of_filter in Hq as [Hq1 Hq2]. destruct Hp.
    rewrite Heq, <- Hq1. apply list_elem_of_fmap. by exists q. }
  destruct (filter _ products) as [|p [|q qs]]; simpl in *; [done|done|lia].
Qed.
End popularity.

(** C7: the baseline predicts the same list for every user, the
    [N_REC] products with the most lines over all prior orders, most
    frequent first; a product more frequent than every other one comes
    first. *)
Theorem popular_baseline_most_frequent_first (k : nat)
    (df : list (order_product_row * option product_row)) :
  let col := (λ r, op_product_id r.1) <$> df in
  let top := get_k_popular k df in
  NoDup top ∧
  length top = (k `min` length (remove_dups col))%nat ∧
  (∀ x, x ∈ top → x ∈ col) ∧
  StronglySorted (count_ge col) top ∧
  (∀ x y, x ∈ top → y ∈ col → y ∉ top →
          (Keys.occurrences y col ≤ Keys.occurrences x col)%nat) ∧
  (∀ x, (0 < k)%nat → x ∈ col →
        (∀ y, y ∈ col → y ≠ x →
              (Keys.occurrences y col < Keys.occurrences x col)%nat) →
        head top = Some x) ∧
  (∀ nb row, popular_products nb = top →
     popular_recommend nb row
     = (actual ← new_products nb row; Ok (recall_score (elements actual) top))) ∧
  (∀ orders ops products model nb,
     run_notebook orders ops products model = Ok nb →
     popular_products nb = get_k_popular N_REC (merge_products_left ops products)).
Proof.
  intros col top.
  set (sorted := stable_sort (count_ge col) (first_seen col)).
  assert (top = take k sorted) as Htop by apply get_k_popular_take.
  assert (StronglySorted (count_ge col) sorted) as Hsorted
    by (apply StronglySorted_stable_sort; apply _).
  assert (sorted ≡ₚ remove_dups col) as Hperm
    by apply value_counts_keys_Permutation.
  assert (NoDup sorted) as Hnd by (rewrite Hperm; apply NoDup_remove_dups).
  assert (∀ x, x ∈ sorted ↔ x ∈ col) as Hin
    by (intros x; rewrite Hperm; apply elem_of_remove_dups).
  rewrite <- (take_drop k sorted), <- Htop in Hsorted, Hnd.
  split; [by apply NoDup_app in Hnd as [? _]|].
  split; [by rewrite Htop, length_take, Hperm|].
  split; [intros x Hx; apply Hin; rewrite Htop in Hx; by eapply subseteq_take|].
  split; [by eapply StronglySorted_app_1_l|].
  split.
  { intros x y Hx Hy Hny.
    apply (StronglySorted_app_1_elem_of _ _ _ x y Hsorted Hx).
    apply Hin in Hy. rewrite <- (take_drop k sorted), <- Htop in Hy.
    by apply elem_of_app in Hy as [?|?]. }
  split.
  { intros x Hk Hx Hmax. apply Hin in Hx.
    destruct sorted as [|h rest] eqn:Hs; [by apply elem_of_nil in Hx|].
    destruct k as [|k']; [lia|]. rewrite Htop. simpl. f_equal.
    destruct (decide (h = x)) as [|Hne]; [done|].
    apply elem_of_cons in Hx as [->|Hx]; [done|].
    assert (StronglySorted (count_ge col) (h :: rest)) as Hs'
      by (rewrite <- Hs; apply StronglySorted_stable_sort; apply _).
    apply StronglySorted_cons in Hs' as [Hh _].
    rewrite Forall_forall in Hh. specialize (Hh x Hx). unfold count_ge in Hh.
    assert (h ∈ col) as Hhc by (apply Hin; left).
    specialize (Hmax h Hhc Hne). lia. }
  split.
  - intros nb row Hpop. unfold popular_recommend. by rewrite Hpop.
  - intros orders ops products model nb. unfold run_notebook.
    destruct (build_product_user_matrix _); [|done]. simpl.
    by intros [= <-].
Qed.

Lemma popular_baseline_most_frequent_first_witness :
  head (get_k_popular N_REC
          (merge_products_left Sample.df_order_products_prior Sample.df_products))
  = Some 196.
Proof.
  apply (proj1 (proj2 (proj2 (proj2 (proj2 (proj2
           (popular_baseline_most_frequent_first N_REC
              (merge_products_left Sample.df_order_products_prior
                 Sample.df_products)))))))).
  - unfold N_REC. lia.
  - vm_compute. left.
  - intros y Hy Hne. vm_compute in Hy.
    repeat (apply elem_of_cons in Hy as [->|Hy];
            [first [done | vm_compute; lia]|]).
    by apply elem_of_nil in Hy.
Defined.

(** ** Recommendation *)

Section recommendation.
Implicit Types (l best : list (nat * Q)) (liked : gset nat).

Lemma enumerate_indices {A} (xs : list A) :
  (enumerate xs).*1 = seq 0 (length xs).
Proof.
  apply list_eq. intros i. unfold enumerate.
  rewrite list_lookup_fmap, list_lookup_imap.
  destruct (xs !! i) as [x|] eqn:Hi; simpl.
  - symmetry. apply lookup_seq. apply lookup_lt_Some in Hi. done.
  - symmetry. apply lookup_ge_None. rewrite length_seq.
    by apply lookup_ge_None in Hi.
Qed.

Lemma filter_fmap_fst (P : nat → Prop) `{∀ i, Decision (P i)} l :
  filter P l.*1 = (filter (λ r, P r.1) l).*1.
Proof.
  induction l as [|r l IH]; [done|].
  rewrite fmap_cons, !filter_cons. simpl.
  destruct (decide (P r.1)); simpl; by rewrite IH.
Qed.

Lemma sorted_by_score_Permutation l : sorted_by_score l ≡ₚ l.
Proof. apply stable_sort_Permutation. Qed.

Lemma length_filter_complement {A} (P1 P2 : A → Prop)
    `{∀ x, Decision (P1 x)} `{∀ x, Decision (P2 x)} (xs : list A) :
  (∀ x, P2 x ↔ ¬ P1 x) →
  (length (filter P1 xs) + length (filter P2 xs))%nat = length xs.
Proof.
  intros Hcompl. induction xs as [|x xs IH]; [done|].
  rewrite !filter_cons.
  destruct (decide (P1 x)) as [Hx|Hx], (decide (P2 x)) as [Hx'|Hx'];
    simpl; try lia.
  - by apply Hcompl in Hx'.
  - by apply Hcompl in Hx.
Qed.

(** of items with distinct indices, at most [size liked] are liked *)
Lemma length_filter_liked l liked :
  NoDup l.*1 → (length (filter (λ r, r.1 ∈ liked) l) ≤ size liked)%nat.
Proof.
  intros Hnd.
  assert (NoDup (filter (λ r, r.1 ∈ liked) l).*1) as Hnd'.
  { apply (sublist_NoDup _ _ Hnd), fmap_sublist, sublist_filter. }
  rewrite <- (length_fmap fst), <- (size_list_to_set (C := gset nat)) by done.
  apply subseteq_size. intros i.
  rewrite elem_of_list_to_set, list_elem_of_fmap.
  intros (r & -> & Hr). by apply list_elem_of_filter in Hr as [? _].
Qed.

Lemma length_filter_not_liked l liked :
  NoDup l.*1 →
  (length l - size liked ≤ length (filter (λ r, r.1 ∉ liked) l))%nat.
Proof.
  intros Hnd. pose proof (length_filter_liked l liked Hnd).
  pose proof (length_filter_complement (λ r : nat * Q, r.1 ∈ liked)
                (λ r : nat * Q, r.1 ∉ liked) l) as Hc.
  rewrite <- Hc by done. lia.
Qed.

Lemma filter_not_liked_enumerate (scores : list Q) (history : list nat) :
  length (filter (λ r : nat * Q, r.1 ∉ (list_to_set history : gset nat))
            (enumerate scores))
  = length (filter (λ i, i ∉ history) (seq 0 (length scores))).
Proof.
  rewrite <- enumerate_indices, filter_fmap_fst, length_fmap.
  f_equal. apply list_filter_iff. intros r. simpl.
  by rewrite elem_of_list_to_set.
Qed.
End recommendation.

(** C6: the items recommended to a user are none of those the user has
    bought, and when at least N items remain after leaving those out,
    exactly N are returned. *)
Theorem recommend_excludes_history (model : als_model) (u : nat)
    (user_items : sparse_matrix) (N : nat) :
  (u < length (user_factors model))%nat →
  (u < (shape user_items).1)%nat →
  ∃ history res,
    row_indices user_items u = Ok history ∧
    recommend model u user_items N = Ok res ∧
    (∀ r, r ∈ res → r.1 ∉ history) ∧
    NoDup res.*1 ∧
    (∀ r, r ∈ res → (r.1 < length (item_factors model))%nat) ∧
    ((N ≤ length (filter (λ i, i ∉ history)
                    (seq 0 (length (item_factors model)))))%nat →
     length res = N).
Proof.
  intros Hu Hrow.
  destruct (lookup_lt_is_Some_2 _ _ Hu) as [user Huser].
  unfold recommend. rewrite Huser. simpl.
  unfold row_indices. rewrite decide_True by done. simpl.
  set (history := (λ e : nat * nat * Z, e.1.2) <$> _).
  set (liked := list_to_set history : gset nat).
  set (scores := dot user <$> item_factors model).
  set (all := enumerate scores).
  set (count := (N + size liked)%nat).
  assert (length scores = length (item_factors model)) as Hlen
    by apply length_fmap.
  assert (all.*1 = seq 0 (length scores)) as Hall by apply enumerate_indices.
  assert (length all = length scores) as Hlall by apply length_imap.
  set (best := if decide (count < length scores)%nat
               then sorted_by_score (argpartition_top count scores)
               else sorted_by_score all).
  set (nonliked := length (filter (λ i, i ∉ history) (seq 0 (length scores)))).
  assert (NoDup all.*1) as Hnd_all by (rewrite Hall; apply NoDup_seq).
  assert (NoDup best.*1
          ∧ (∀ r, r ∈ best → r ∈ all)
          ∧ (N `min` nonliked ≤ length (filter (λ r, r.1 ∉ liked) best))%nat)
    as (Hnd & Hin & Hcount).
  { unfold best. destruct (decide (count < length scores)%nat) as [Hlt|Hge].
    - unfold argpartition_top. fold all.
      remember (take count (sorted_by_score all)) as T eqn:HeqT.
      assert (T `sublist_of` sorted_by_score all) as HT
        by (rewrite HeqT; apply sublist_take).
      assert (NoDup T.*1) as HndT.
      { eapply sublist_NoDup; [|by apply fmap_sublist].
        by rewrite sorted_by_score_Permutation. }
      assert (length T = count) as HlT.
      { rewrite HeqT, length_take_le; [done|].
        rewrite (Permutation_length (sorted_by_score_Permutation all)). lia. }
      split; [by rewrite sorted_by_score_Permutation|]. split.
      + intros r. rewrite sorted_by_score_Permutation. intros Hr.
        rewrite <- (sorted_by_score_Permutation all).
        by eapply elem_of_sublist.
      + rewrite sorted_by_score_Permutation.
        pose proof (length_filter_not_liked T liked HndT). unfold count in HlT.
        lia.
    - split; [by rewrite sorted_by_score_Permutation|]. split.
      + intros r. by rewrite sorted_by_score_Permutation.
      + rewrite sorted_by_score_Permutation. unfold all, liked, nonliked.
        rewrite filter_not_liked_enumerate. lia. }
  exists history, (take N (filter (λ rec : nat * Q, rec.1 ∉ liked) best)).
  split; [done|]. split; [done|].
  assert (take N (filter (λ rec : nat * Q, rec.1 ∉ liked) best) `sublist_of` best)
    as Hres by (etrans; [apply sublist_take | apply sublist_filter]).
  split; [|split; [|split]].
  - intros r Hr. apply subseteq_take, list_elem_of_filter in Hr as [Hr _].
    unfold liked in Hr. by rewrite elem_of_list_to_set in Hr.
  - eapply sublist_NoDup; [exact Hnd | by apply fmap_sublist].
  - intros r Hr. rewrite <- Hlen.
    assert (r.1 ∈ all.*1) as Hr1.
    { apply list_elem_of_fmap. exists r. split; [done|].
      apply Hin. by eapply elem_of_sublist. }
    rewrite Hall in Hr1. apply elem_of_seq in Hr1. lia.
  - rewrite <- Hlen. fold nonliked. intros HN.
    rewrite length_take_le; [done | lia].
Qed.

Lemma recommend_excludes_history_witness :
  ∃ history res,
    row_indices (user_product_matrix Sample.globals) 1 = Ok history ∧
    recommend Sample.model 1 (user_product_matrix Sample.globals) 1 = Ok res ∧
    (∀ r, r ∈ res → r.1 ∉ history) ∧
    NoDup res.*1 ∧
    (∀ r, r ∈ res → (r.1 < length (item_factors Sample.model))%nat) ∧
    ((1 ≤ length (filter (λ i, i ∉ history)
                    (seq 0 (length (item_factors Sample.model)))))%nat →
     length res = 1%nat).
Proof.
  apply (recommend_excludes_history Sample.model 1
           (user_product_matrix Sample.globals) 1); vm_compute; lia.
Defined.

Example recommend_sample :
  recommend Sample.model 1 (user_product_matrix Sample.globals) 1
  = Ok [(0%nat, 1%Q)].
Proof. by vm_compute. Qed.

(** * Further properties of the notebook's functions *)

(** ** Recall: range and extremes *)

Section recall_range.
Implicit Types actual pred : list Z.

Lemma recall_score_fraction actual pred :
  actual ≠ [] →
  ∃ k n : Z,
    k = Z.of_nat (size ((list_to_set actual : gset Z) ∩ list_to_set pred)) ∧
    n = Z.of_nat (size (list_to_set actual : gset Z)) ∧
    0 ≤ k ≤ n ∧ 0 < n ∧
    recall_score actual pred = (inject_Z k / inject_Z n)%Q.
Proof.
  intros Hne. eexists _, _. split; [done|]. split; [done|].
  pose proof (size_pos_of_nonempty actual Hne) as Hpos.
  assert (size ((list_to_set actual : gset Z) ∩ list_to_set pred)
          ≤ size (list_to_set actual : gset Z))%nat as Hle.
  { apply subseteq_size. intros x. rewrite elem_of_intersection. tauto. }
  split; [lia|]. split; [lia|]. by apply recall_score_nonempty.
Qed.

Lemma Qdiv_inject_eq (k n c : Z) :
  0 < n → (inject_Z k / inject_Z n == inject_Z c)%Q ↔ k = c * n.
Proof.
  intros Hn.
  assert (¬ (inject_Z n == 0)%Q) as Hn0.
  { change 0%Q with (inject_Z 0). rewrite inject_Z_injective. lia. }
  rewrite <- inject_Z_injective, inject_Z_mult. split.
  - intros Heq. rewrite <- Heq. unfold Qdiv.
    rewrite <- Qmult_assoc, (Qmult_comm (/ inject_Z n)), Qmult_inv_r by done.
    by rewrite Qmult_1_r.
  - intros Heq. rewrite Heq. by apply Qdiv_mult_l.
Qed.

(** the recall is a fraction between 0 and 1 *)
Theorem recall_score_bounds actual pred :
  (0 <= recall_score actual pred)%Q ∧ (recall_score actual pred <= 1)%Q.
Proof.
  destruct actual as [|a actual]; [by split|].
  destruct (recall_score_fraction (a :: actual) pred) as (k & n & _ & _ & Hk & Hn & ->);
    [done|].
  assert (0 < inject_Z n)%Q as HnQ
    by (change 0%Q with (inject_Z 0); rewrite <- Zlt_Qlt; lia).
  split.
  - apply Qle_shift_div_l; [done|]. rewrite Qmult_0_l.
    change 0%Q with (inject_Z 0). rewrite <- Zle_Qle. lia.
  - apply Qle_shift_div_r; [done|]. rewrite Qmult_1_l.
    rewrite <- Zle_Qle. lia.
Qed.

(** for a basket that is not empty, the recall is 1 exactly when every
    product of the basket is predicted, and 0 exactly when none is *)
Theorem recall_score_extremes actual pred :
  actual ≠ [] →
  ((recall_score actual pred == 1)%Q ↔ ∀ x, x ∈ actual → x ∈ pred) ∧
  ((recall_score actual pred == 0)%Q ↔ ∀ x, x ∈ actual → x ∉ pred).
Proof.
  intros Hne.
  destruct (recall_score_fraction actual pred Hne) as (k & n & Hk & Hn & Hkn & Hpos & ->).
  set (A := list_to_set actual : gset Z) in *.
  set (P := list_to_set pred : gset Z) in *.
  split.
  - change 1%Q with (inject_Z 1). rewrite Qdiv_inject_eq by done. split.
    + intros Heq x Hx.
      assert (A ∩ P = A) as Hsame.
      { apply set_subseteq_size_eq; [|lia].
        intros y. rewrite elem_of_intersection. tauto. }
      assert (x ∈ A ∩ P) as Hin by (rewrite Hsame; by apply elem_of_list_to_set).
      apply elem_of_intersection in Hin as [_ Hin].
      by apply elem_of_list_to_set in Hin.
    + intros Hall. assert (A ∩ P = A) as Hsame.
      { apply set_eq. intros x. unfold A, P.
        rewrite elem_of_intersection, !elem_of_list_to_set.
        split; [tauto | intros ?; split; [done | by apply Hall]]. }
      rewrite Hk, Hn, Hsame. lia.
  - change 0%Q with (inject_Z 0). rewrite Qdiv_inject_eq by done. split.
    + intros Heq x Hx Hp.
      assert (size (A ∩ P) = 0%nat) as Hz by lia.
      apply size_empty_iff, leibniz_equiv in Hz.
      assert (x ∈ A ∩ P) as Hin
        by (apply elem_of_intersection; split; by apply elem_of_list_to_set).
      rewrite Hz in Hin. by apply not_elem_of_empty in Hin.
    + intros Hnone. assert (A ∩ P = ∅) as Hempty.
      { apply set_eq. intros x. unfold A, P.
        rewrite elem_of_intersection, !elem_of_list_to_set.
        split; [intros [? ?]; exfalso; by eapply Hnone | by intros ?%not_elem_of_empty]. }
      rewrite Hk, Hempty, size_empty. lia.
Qed.
End recall_range.

Lemma recall_score_extremes_witness :
  ((recall_score [1; 2]%Z [2; 5; 1]%Z == 1)%Q ↔ ∀ x : Z, x ∈ [1; 2] → x ∈ [2; 5; 1]) ∧
  ((recall_score [1; 2]%Z [2; 5; 1]%Z == 0)%Q ↔ ∀ x : Z, x ∈ [1; 2] → x ∉ [2; 5; 1]).
Proof. apply (recall_score_extremes [1; 2] [2; 5; 1]). discriminate. Defined.

(** ** Aggregation: canonical form and conservation *)

Section aggregation_more.
Implicit Types (pairs : list (Z * Z)) (orders : list order_row)
  (ops : list order_product_row).

Lemma occurrences_merge_Permutation orders orders' ops ops' (k : Z * Z) :
  orders ≡ₚ orders' → ops ≡ₚ ops' →
  Keys.occurrences k (merge_on_order_id orders ops)
  = Keys.occurrences k (merge_on_order_id orders' ops').
Proof.
  intros Ho Hl. destruct k as [u p]. rewrite !occurrences_merge.
  rewrite <- Ho. f_equal. apply list_fmap_ext. intros _ o _. simpl.
  by rewrite Hl.
Qed.

Lemma groupby_size_ext pairs pairs' :
  (∀ k, Keys.occurrences k pairs = Keys.occurrences k pairs') →
  groupby_size pairs = groupby_size pairs'.
Proof.
  intros Hocc. unfold groupby_size.
  rewrite (KeysFacts.unique_sorted_ext pair_le pairs pairs').
  - apply list_fmap_ext. intros _ k _. by rewrite Hocc.
  - intros k. by rewrite !KeysFacts.occurrences_pos, Hocc.
Qed.

Lemma StronglySorted_fmap_inv {A B} (R : relation B) (f : A → B) (l : list A) :
  StronglySorted R (f <$> l) → StronglySorted (λ a b, R (f a) (f b)) l.
Proof.
  induction l as [|a l IH]; [constructor|].
  rewrite fmap_cons. intros [Hall Hl]%StronglySorted_cons.
  constructor; [by apply IH|]. by rewrite Forall_fmap in Hall.
Qed.

Lemma sum_indicator {K} `{EqDecision K} (x : K) (keys : list K) :
  NoDup keys → x ∈ keys →
  sum_list ((λ k, Keys.occurrences k [x]) <$> keys) = 1%nat.
Proof.
  induction 1 as [|k keys Hk Hnd IH]; [by intros ?%elem_of_nil|].
  intros Hx. rewrite fmap_cons. simpl. unfold Keys.occurrences at 1.
  rewrite filter_cons, filter_nil.
  destruct (decide (x = k)) as [->|Hne].
  - simpl. f_equal.
    rewrite (list_fmap_ext _ (λ _, 0%nat) keys); [by rewrite sum_list_fmap_const|].
    intros _ k' Hk'%list_elem_of_lookup_2. unfold Keys.occurrences.
    rewrite filter_cons, filter_nil, decide_False; [done|]. by intros ->.
  - simpl. apply IH. by apply elem_of_cons in Hx as [?|?].
Qed.

(** over keys that cover the list, the occurrence counts add up to its
    length *)
Lemma sum_occurrences {K} `{EqDecision K} (l keys : list K) :
  NoDup keys → (∀ x, x ∈ l → x ∈ keys) →
  sum_list ((λ k, Keys.occurrences k l) <$> keys) = length l.
Proof.
  intros Hnd. induction l as [|x l IH]; intros Hcover.
  - rewrite (list_fmap_ext _ (λ _, 0%nat) keys) by done.
    by rewrite sum_list_fmap_const.
  - assert (sum_list ((λ k, Keys.occurrences k (x :: l)) <$> keys)
            = (sum_list ((λ k, Keys.occurrences k [x]) <$> keys)
               + sum_list ((λ k, Keys.occurrences k l) <$> keys))%nat) as ->.
    { clear. induction keys as [|k keys IHk]; [done|].
      rewrite !fmap_cons. simpl. rewrite IHk.
      change (x :: l) with ([x] ++ l). rewrite occurrences_app. lia. }
    rewrite IH by (intros y ?; apply Hcover; by right).
    rewrite (sum_indicator x keys Hnd) by (apply Hcover; left). done.
Qed.

Lemma sum_Z_of_nat (ns : list nat) :
  sum_Z (Z.of_nat <$> ns) = Z.of_nat (sum_list ns).
Proof.
  induction ns as [|n ns IH]; [done|]. rewrite fmap_cons.
  change (sum_Z (Z.of_nat n :: (Z.of_nat <$> ns)))
    with (Z.of_nat n + sum_Z (Z.of_nat <$> ns)).
  rewrite IH. simpl. lia.
Qed.

Lemma sum_Z_Permutation (l l' : list Z) : l ≡ₚ l' → sum_Z l = sum_Z l'.
Proof.
  induction 1 as [|x l l' _ IH|x y l|l1 l2 l3 _ IH1 _ IH2]; simpl; lia.
Qed.

Lemma groupby_size_total pairs :
  sum_Z (quantity <$> groupby_size pairs) = Z.of_nat (length pairs).
Proof.
  unfold groupby_size, Keys.unique_sorted.
  rewrite <- list_fmap_compose.
  erewrite (list_fmap_ext _ (Z.of_nat ∘ (λ k, Keys.occurrences k pairs)));
    [|by intros].
  rewrite list_fmap_compose, sum_Z_of_nat. f_equal.
  rewrite merge_sort_Permutation.
  apply sum_occurrences; [apply NoDup_remove_dups|].
  intros x. by rewrite elem_of_remove_dups.
Qed.

(** with order ids that identify the orders, the join keeps each line
    of a listed order once *)
Lemma length_merge_on_order_id orders ops :
  NoDup (o_order_id <$> orders) →
  length (merge_on_order_id orders ops)
  = length (filter (λ l, op_order_id l ∈ o_order_id <$> orders) ops).
Proof.
  unfold merge_on_order_id. induction orders as [|o orders IH]; intros Hnd.
  - simpl. induction ops as [|l ops IHl]; [done|].
    rewrite filter_cons, decide_False; [done|]. by intros ?%elem_of_nil.
  - rewrite fmap_cons in Hnd. apply NoDup_cons in Hnd as [Ho Hnd].
    rewrite bind_cons, length_app, IH by done. clear IH.
    rewrite fmap_cons.
    induction ops as [|l ops IHl]; [done|].
    rewrite !filter_cons.
    destruct (decide (op_order_id l = o_order_id o)) as [Heq|Hne].
    + rewrite bind_cons. simpl.
      rewrite decide_False by (by rewrite Heq).
      rewrite decide_True by (rewrite Heq; left). simpl. lia.
    + destruct (decide (op_order_id l ∈ o_order_id <$> orders)) as [Hin|Hnin].
      * rewrite decide_True by (by right). simpl. lia.
      * rewrite decide_False; [done|].
        by intros [?|?]%elem_of_cons.
Qed.
End aggregation_more.

(** the rows come out in ascending (user_id, product_id) order; the
    order of the rows of the two input frames does not matter; and
    orders outside the "prior" set contribute nothing *)
Theorem get_user_product_prior_df_canonical
    (df_orders df_orders' extra : list order_row)
    (df_ops df_ops' : list order_product_row) :
  StronglySorted
    (λ a b, user_id a < user_id b
            ∨ (user_id a = user_id b ∧ product_id a < product_id b))
    (get_user_product_prior_df df_orders df_ops) ∧
  (df_orders ≡ₚ df_orders' → df_ops ≡ₚ df_ops' →
   get_user_product_prior_df df_orders' df_ops'
   = get_user_product_prior_df df_orders df_ops) ∧
  (Forall (λ o, o_eval_set o ≠ "prior"%string) extra →
   get_user_product_prior_df (df_orders ++ extra) df_ops
   = get_user_product_prior_df df_orders df_ops).
Proof.
  split; [|split].
  - unfold get_user_product_prior_df.
    set (pairs := merge_on_order_id _ _).
    pose proof (KeysFacts.StronglySorted_NoDup_strict pair_le _
                  (KeysFacts.StronglySorted_unique_sorted pair_le pairs)
                  (KeysFacts.NoDup_unique_sorted pair_le pairs)) as Hs.
    rewrite <- groupby_size_keys in Hs. apply StronglySorted_fmap_inv in Hs.
    induction Hs as [|r l Hl IH Hr]; constructor; [done|].
    eapply Forall_impl; [exact Hr|]. intros r' [Hle Hne]. simpl in *.
    unfold pair_le in Hle. simpl in Hle.
    destruct (decide (product_id r = product_id r')) as [Hp|Hp]; [|lia].
    destruct (decide (user_id r = user_id r')) as [Hu|Hu]; [|lia].
    destruct Hne. by rewrite Hp, Hu.
  - intros Ho Hl. unfold get_user_product_prior_df.
    apply groupby_size_ext. intros k. apply occurrences_merge_Permutation.
    + by rewrite Ho.
    + done.
  - intros Hextra. unfold get_user_product_prior_df.
    rewrite filter_app.
    assert (filter (λ o, o_eval_set o = "prior"%string) extra = []) as ->.
    { induction Hextra as [|o extra Ho _ IH]; [done|].
      by rewrite filter_cons, decide_False. }
    by rewrite app_nil_r.
Qed.

Lemma get_user_product_prior_df_canonical_witness :
  get_user_product_prior_df (reverse Sample.df_orders)
    (reverse Sample.df_order_products_prior)
  = get_user_product_prior_df Sample.df_orders Sample.df_order_products_prior ∧
  get_user_product_prior_df
    (Sample.df_orders ++ [ {| o_order_id := 9; o_user_id := 1; o_eval_set := "test" |} ])
    Sample.df_order_products_prior
  = get_user_product_prior_df Sample.df_orders Sample.df_order_products_prior.
Proof.
  pose proof (get_user_product_prior_df_canonical Sample.df_orders
                (reverse Sample.df_orders)
                [ {| o_order_id := 9; o_user_id := 1; o_eval_set := "test" |} ]
                Sample.df_order_products_prior
                (reverse Sample.df_order_products_prior)) as (_ & Hperm & Hextra).
  split.
  - apply Hperm; symmetry; apply reverse_Permutation.
  - apply Hextra. repeat constructor. discriminate.
Defined.

(** when the prior orders have distinct ids, the quantities add up to
    the number of lines of prior orders: no line is lost and none is
    counted twice *)
Theorem get_user_product_prior_df_conserves_lines
    (df_orders : list order_row) (df_ops : list order_product_row) :
  let prior := filter (λ o, o_eval_set o = "prior"%string) df_orders in
  NoDup (o_order_id <$> prior) →
  sum_Z (quantity <$> get_user_product_prior_df df_orders df_ops)
  = Z.of_nat (length (filter (λ l, op_order_id l ∈ o_order_id <$> prior) df_ops)).
Proof.
  intros prior Hnd. unfold get_user_product_prior_df. fold prior.
  by rewrite groupby_size_total, length_merge_on_order_id.
Qed.

Lemma get_user_product_prior_df_conserves_lines_witness :
  sum_Z (quantity <$> get_user_product_prior_df Sample.df_orders
                        Sample.df_order_products_prior)
  = Z.of_nat
      (length
         (filter (λ l, op_order_id l
                       ∈ o_order_id <$> filter (λ o, o_eval_set o = "prior"%string)
                                          Sample.df_orders)
            Sample.df_order_products_prior)).
Proof.
  apply (get_user_product_prior_df_conserves_lines Sample.df_orders
           Sample.df_order_products_prior).
  vm_compute. repeat constructor; rewrite ?elem_of_cons, ?elem_of_nil; intuition lia.
Defined.

(** ** The utility matrix: shape, entries, transposition, sparsity *)

Section matrix.
Implicit Types (m : sparse_matrix) (df : list user_product_row) (col : list Z).

Lemma wrap64_range (z : Z) : - 2 ^ 63 ≤ wrap64 z < 2 ^ 63.
Proof.
  unfold wrap64. pose proof (Z.mod_pos_bound (z + 2 ^ 63) (2 ^ 64)). lia.
Qed.

Lemma wrap64_idemp (z : Z) : wrap64 (wrap64 z) = wrap64 z.
Proof. apply wrap64_small, wrap64_range. Qed.

Lemma filter_ext_in {A} (P1 P2 : A → Prop)
    `{∀ x, Decision (P1 x)} `{∀ x, Decision (P2 x)} (l : list A) :
  (∀ x, x ∈ l → P1 x ↔ P2 x) → filter P1 l = filter P2 l.
Proof.
  induction l as [|x l IH]; intros Hext; [done|].
  rewrite !filter_cons.
  rewrite IH by (intros y ?; apply Hext; by right).
  destruct (decide (P1 x)) as [Hx|Hx], (decide (P2 x)) as [Hx'|Hx']; try done.
  - destruct Hx'. apply Hext; [left|done].
  - destruct Hx. apply Hext; [left|done].
Qed.

Lemma filter_fmap {A B} (f : A → B) (P : B → Prop) `{∀ y, Decision (P y)}
    (l : list A) :
  filter P (f <$> l) = f <$> filter (λ a, P (f a)) l.
Proof.
  induction l as [|a l IH]; [done|].
  rewrite fmap_cons, !filter_cons. destruct (decide (P (f a))); by rewrite IH.
Qed.

(** the entries of a key in a list that stores each key once *)
Lemma filter_keyed {K V} `{EqDecision K} (g : K → V) (keys : list K) (k : K) :
  NoDup keys →
  filter (λ e : K * V, e.1 = k) ((λ k', (k', g k')) <$> keys)
  = if decide (k ∈ keys) then [(k, g k)] else [].
Proof.
  induction 1 as [|k' keys Hk' Hnd IH].
  - by rewrite decide_False by (by intros ?%elem_of_nil).
  - rewrite fmap_cons, filter_cons, IH. simpl.
    destruct (decide (k' = k)) as [->|Hne].
    + rewrite decide_False by done. by rewrite decide_True by left.
    + destruct (decide (k ∈ keys)) as [Hin|Hnin].
      * by rewrite decide_True by (by right).
      * rewrite decide_False; [done|]. by intros [?|?]%elem_of_cons.
Qed.

Lemma getitem_tocsr m (i j : nat) : getitem (tocsr m) i j = getitem m i j.
Proof.
  unfold getitem. change (shape (tocsr m)) with (shape m).
  destruct (decide _); [|done]. f_equal.
  unfold tocsr. simpl.
  rewrite (filter_keyed
             (λ k, wrap64 (sum_Z (filter (λ e, e.1 = k) (entries m)).*2))
             (Keys.unique_sorted index_le (entries m).*1) (i, j))
    by apply KeysFacts.NoDup_unique_sorted.
  destruct (decide ((i, j) ∈ Keys.unique_sorted index_le (entries m).*1))
    as [Hin|Hnin].
  - simpl. rewrite Z.add_0_r. apply wrap64_idemp.
  - rewrite (KeysFacts.elem_of_unique_sorted index_le) in Hnin.
    assert (filter (λ e : nat * nat * Z, e.1 = (i, j)) (entries m) = []) as ->; [|done].
    destruct (filter _ (entries m)) as [|e es] eqn:Hf; [done|].
    assert (e ∈ filter (λ e : nat * nat * Z, e.1 = (i, j)) (entries m)) as He
      by (rewrite Hf; left).
    apply list_elem_of_filter in He as [He1 He2]. destruct Hnin.
    rewrite <- He1. by apply list_elem_of_fmap_2.
Qed.

Lemma getitem_transpose m (i j : nat) :
  getitem (transpose m) j i = getitem m i j.
Proof.
  unfold getitem, transpose. simpl.
  assert ((filter (λ e : nat * nat * Z, e.1 = (j, i))
             ((λ e : nat * nat * Z, (e.1.2, e.1.1, e.2)) <$> entries m)).*2
          = (filter (λ e : nat * nat * Z, e.1 = (i, j)) (entries m)).*2) as ->.
  { rewrite filter_fmap, <- list_fmap_compose. simpl.
    rewrite (filter_ext_in _ (λ e : nat * nat * Z, e.1 = (i, j))).
    - by apply list_fmap_ext.
    - intros [[a b] v] _. simpl. split; intros [= -> ->]; done. }
  destruct (decide _) as [Hd|Hd], (decide _) as [Hd'|Hd']; try done; tauto.
Qed.

(** the largest code of a column is the last category *)
Lemma cat_codes_max col :
  col ≠ [] →
  S (max_list ((λ x, Z.to_nat (Keys.code_of (categories col) x)) <$> col))
  = length (categories col).
Proof.
  intros Hne. set (cats := categories col).
  set (codes := (λ x, Z.to_nat (Keys.code_of cats x)) <$> col).
  assert (NoDup cats) as Hnd by apply KeysFacts.NoDup_unique_sorted.
  assert (∀ x, x ∈ col → cats !! Z.to_nat (Keys.code_of cats x) = Some x) as Hcode.
  { intros x Hx.
    destruct (KeysFacts.code_of_lookup cats x) as (i & -> & Hi).
    - by apply (KeysFacts.elem_of_unique_sorted Z.le).
    - by rewrite Nat2Z.id. }
  assert (codes ≠ []) as Hcodes by (unfold codes; by destruct col).
  apply Nat.le_antisymm.
  - pose proof (max_list_elem_of codes Hcodes) as Hmax.
    apply list_elem_of_fmap in Hmax as (x & -> & Hx).
    apply Nat.le_succ_l. eapply lookup_lt_Some. by apply Hcode.
  - destruct (length cats) as [|n] eqn:Hlen; [lia|].
    apply le_n_S, max_list_elem_of_le.
    destruct (lookup_lt_is_Some_2 cats n) as [x Hx]; [lia|].
    assert (x ∈ col) as Hin.
    { apply (KeysFacts.elem_of_unique_sorted Z.le). by eapply list_elem_of_lookup_2. }
    apply list_elem_of_fmap. exists x. split; [|done].
    eapply NoDup_lookup; [exact Hnd|exact Hx|]. by apply Hcode.
Qed.

(** positions taken once each inside an r x c grid are at most r * c *)
Lemma length_positions_bound (keys : list (nat * nat)) (r c : nat) :
  NoDup keys → (∀ k, k ∈ keys → (k.1 < r)%nat ∧ (k.2 < c)%nat) →
  (length keys ≤ r * c)%nat.
Proof.
  intros Hnd Hin.
  set (grid := (i ← seq 0 r; (λ j, (i, j)) <$> seq 0 c) : list (nat * nat)).
  assert (length grid = (r * c)%nat) as <-.
  { unfold grid. transitivity (length (seq 0 r) * c)%nat;
      [|by rewrite length_seq].
    induction (seq 0 r) as [|i rows IH]; [done|].
    rewrite bind_cons, length_app, length_fmap, length_seq, IH. simpl. lia. }
  apply submseteq_length, NoDup_submseteq; [done|].
  intros [i j] Hk. destruct (Hin _ Hk) as [Hi Hj]. simpl in *.
  unfold grid. apply list_elem_of_bind. exists i. split.
  - apply list_elem_of_fmap. exists j. split; [done|]. apply elem_of_seq. lia.
  - apply elem_of_seq. lia.
Qed.
End matrix.

Section built_matrix.
Implicit Types (m : sparse_matrix) (df : list user_product_row).

Lemma build_product_user_matrix_inv df m :
  build_product_user_matrix df = Ok m →
  let items := categories (product_id <$> df) in
  let users := categories (user_id <$> df) in
  df ≠ [] ∧
  shape m = (length items, length users) ∧
  entries m
  = (λ r, ((Z.to_nat (Keys.code_of items (product_id r)),
            Z.to_nat (Keys.code_of users (user_id r))), quantity r)) <$> df ∧
  (∀ r, r ∈ df →
        items !! Z.to_nat (Keys.code_of items (product_id r)) = Some (product_id r)
        ∧ users !! Z.to_nat (Keys.code_of users (user_id r)) = Some (user_id r)).
Proof.
  intros Hbuild items users.
  assert (df ≠ []) as Hne by (intros ->; by vm_compute in Hbuild).
  rewrite build_product_user_matrix_Ok in Hbuild by done.
  injection Hbuild as <-. split; [done|]. split; [|split; [done|]].
  - simpl. f_equal.
    + fold items. unfold items at 2.
      rewrite <- (cat_codes_max (product_id <$> df)) by (by destruct df).
      by rewrite <- list_fmap_compose.
    + fold users. unfold users at 2.
      rewrite <- (cat_codes_max (user_id <$> df)) by (by destruct df).
      by rewrite <- list_fmap_compose.
  - intros r Hr.
    destruct (KeysFacts.code_of_lookup items (product_id r)) as (i & -> & Hi).
    { apply (KeysFacts.elem_of_unique_sorted Z.le), list_elem_of_fmap.
      by exists r. }
    destruct (KeysFacts.code_of_lookup users (user_id r)) as (j & -> & Hj).
    { apply (KeysFacts.elem_of_unique_sorted Z.le), list_elem_of_fmap.
      by exists r. }
    by rewrite !Nat2Z.id.
Qed.

Lemma quantity_of_unique_key df (r : user_product_row) :
  NoDup ((λ r, (user_id r, product_id r)) <$> df) → r ∈ df →
  quantity <$> filter (λ r', (user_id r', product_id r') = (user_id r, product_id r)) df
  = [quantity r].
Proof.
  induction df as [|r0 df IH]; intros Hnd Hr; [by apply elem_of_nil in Hr|].
  rewrite fmap_cons in Hnd. apply NoDup_cons in Hnd as [Hr0 Hnd].
  rewrite filter_cons.
  destruct (decide ((user_id r0, product_id r0) = (user_id r, product_id r)))
    as [Heq|Hne].
  - assert (r = r0) as ->.
    { apply elem_of_cons in Hr as [?|Hr]; [done|]. destruct Hr0.
      rewrite Heq. by apply (list_elem_of_fmap_2 (λ r, (user_id r, product_id r))). }
    rewrite fmap_cons. f_equal.
    assert (filter (λ r', (user_id r', product_id r') = (user_id r0, product_id r0)) df
            = []) as ->; [|done].
    destruct (filter _ df) as [|r1 rs] eqn:Hf; [done|].
    assert (r1 ∈ filter (λ r', (user_id r', product_id r')
                                = (user_id r0, product_id r0)) df) as H1
      by (rewrite Hf; left).
    apply list_elem_of_filter in H1 as [H1 H2]. destruct Hr0.
    rewrite <- H1. by apply (list_elem_of_fmap_2 (λ r, (user_id r, product_id r))).
  - apply IH; [done|]. apply elem_of_cons in Hr as [->|?]; [done|done].
Qed.
End built_matrix.

(** the built matrix has one row per distinct product, one column per
    distinct user, and one stored entry per row of the frame *)
Theorem build_product_user_matrix_shape (df : list user_product_row)
    (m : sparse_matrix) :
  build_product_user_matrix df = Ok m →
  shape m = (length (categories (product_id <$> df)),
             length (categories (user_id <$> df))) ∧
  length (entries m) = length df ∧
  (0 < (shape m).1)%nat ∧ (0 < (shape m).2)%nat.
Proof.
  intros Hbuild.
  destruct (build_product_user_matrix_inv df m Hbuild) as (Hne & Hshape & Hentries & _).
  split; [done|]. split; [by rewrite Hentries, length_fmap|].
  rewrite build_product_user_matrix_Ok in Hbuild by done.
  injection Hbuild as <-. simpl. lia.
Qed.

Lemma build_product_user_matrix_shape_witness :
  shape {| shape := (3%nat, 2%nat);
           entries := [((0%nat, 0%nat), 1); ((2%nat, 0%nat), 2);
                       ((1%nat, 1%nat), 1); ((2%nat, 1%nat), 1)] |}
  = (length (categories (product_id <$> Sample.df_user_product_prior)),
     length (categories (user_id <$> Sample.df_user_product_prior))).
Proof.
  apply (build_product_user_matrix_shape Sample.df_user_product_prior).
  by vm_compute.
Defined.

(** for a frame with one row per (user, product) pair and quantities
    within [int64], the matrix read at the indices of a pair gives back
    the pair's quantity, and 0 where the pair has no row (the notebook
    checks one such entry: user 1 bought product 196 ten times) *)
Theorem product_user_matrix_getitem (df : list user_product_row)
    (m : sparse_matrix) :
  build_product_user_matrix df = Ok m →
  NoDup ((λ r, (user_id r, product_id r)) <$> df) →
  Forall (λ r, - 2 ^ 63 ≤ quantity r < 2 ^ 63) df →
  ∀ (i j : nat) (pid uid : Z),
    categories (product_id <$> df) !! i = Some pid →
    categories (user_id <$> df) !! j = Some uid →
    (∀ r, r ∈ df → user_id r = uid → product_id r = pid →
          getitem (tocsr m) i j = Ok (quantity r)) ∧
    ((∀ r, r ∈ df → ¬ (user_id r = uid ∧ product_id r = pid)) →
     getitem (tocsr m) i j = Ok 0).
Proof.
  intros Hbuild Hnd Hrange i j pid uid Hi Hj.
  destruct (build_product_user_matrix_inv df m Hbuild)
    as (Hne & Hshape & Hentries & Hcodes).
  set (items := categories (product_id <$> df)) in *.
  set (users := categories (user_id <$> df)) in *.
  assert (NoDup items) as Hnd_i by apply KeysFacts.NoDup_unique_sorted.
  assert (NoDup users) as Hnd_u by apply KeysFacts.NoDup_unique_sorted.
  rewrite getitem_tocsr. unfold getitem. rewrite Hshape. simpl.
  rewrite decide_True
    by (split; eapply lookup_lt_Some; [exact Hi | exact Hj]).
  rewrite Hentries, filter_fmap, <- list_fmap_compose. simpl.
  rewrite (filter_ext_in _ (λ r', (user_id r', product_id r') = (uid, pid))).
  2:{ intros r' Hr'. destruct (Hcodes r' Hr') as [Hp Hu]. split.
      - intros [= <- <-]. congruence.
      - intros [= <- <-]. f_equal.
        + exact (NoDup_lookup _ _ _ _ Hnd_i Hp Hi).
        + exact (NoDup_lookup _ _ _ _ Hnd_u Hu Hj). }
  split.
  - intros r Hr <- <-.
    erewrite (list_fmap_ext _ quantity); [|by intros].
    rewrite (quantity_of_unique_key df r Hnd Hr). simpl. rewrite Z.add_0_r.
    f_equal. apply wrap64_small.
    rewrite Forall_forall in Hrange. by apply Hrange.
  - intros Habsent.
    assert (filter (λ r', (user_id r', product_id r') = (uid, pid)) df = []) as ->;
      [|done].
    destruct (filter _ df) as [|r1 rs] eqn:Hf; [done|].
    assert (r1 ∈ filter (λ r', (user_id r', product_id r') = (uid, pid)) df) as H1
      by (rewrite Hf; left).
    apply list_elem_of_filter in H1 as [[= Hu Hp] Hin].
    by destruct (Habsent r1 Hin).
Qed.

Lemma product_user_matrix_getitem_witness :
  getitem
    (tocsr {| shape := (3%nat, 2%nat);
              entries := [((0%nat, 0%nat), 1); ((2%nat, 0%nat), 2);
                          ((1%nat, 1%nat), 1); ((2%nat, 1%nat), 1)] |})
    2 0
  = Ok (quantity {| user_id := 1; product_id := 196; quantity := 2 |}).
Proof.
  apply (proj1 (product_user_matrix_getitem Sample.df_user_product_prior _
                  ltac:(by vm_compute)
                  ltac:(vm_compute; repeat constructor;
                        rewrite ?elem_of_cons, ?elem_of_nil; intuition congruence)
                  ltac:(repeat constructor; simpl; lia)
                  2%nat 0%nat 196 1 eq_refl eq_refl)
                {| user_id := 1; product_id := 196; quantity := 2 |});
    [right; left | done | done].
Defined.

Lemma tocsr_NoDup (m : sparse_matrix) : NoDup (entries (tocsr m)).*1.
Proof.
  unfold tocsr. simpl. rewrite <- list_fmap_compose.
  erewrite (list_fmap_ext _ id); [|by intros]. rewrite list_fmap_id.
  apply KeysFacts.NoDup_unique_sorted.
Qed.

Lemma row_indices_NoDup (m : sparse_matrix) (i : nat) indices :
  NoDup (entries m).*1 → row_indices m i = Ok indices → NoDup indices.
Proof.
  unfold row_indices. destruct (decide _); [|done]. intros Hnd [= <-].
  induction (entries m) as [|[[a b] v] es IH]; [constructor|].
  rewrite fmap_cons in Hnd. apply NoDup_cons in Hnd as [Hk Hnd].
  rewrite filter_cons. destruct (decide _) as [Ha|Ha]; [|by apply IH].
  simpl in Ha. subst a. rewrite fmap_cons. constructor; [|by apply IH].
  simpl. intros Hb. apply list_elem_of_fmap in Hb as ([[a' b'] v'] & -> & Hin).
  apply list_elem_of_filter in Hin as [Ha' Hin]. simpl in *. subst a'.
  apply Hk. apply list_elem_of_fmap. by exists ((i, b'), v').
Qed.

(** ** Rows of the same user and product *)

Section duplicates.
Implicit Types (m : sparse_matrix) (df : list user_product_row).

Lemma occurrences_sum_of_ones {K} `{EqDecision K} (k : K) (l : list K) :
  Z.of_nat (Keys.occurrences k l)
  = sum_Z ((λ _, 1) <$> filter (λ k', k' = k) l).
Proof.
  unfold Keys.occurrences.
  induction (filter (λ k', k' = k) l) as [|x xs IH]; [done|].
  rewrite fmap_cons. cbn [length]. rewrite Nat2Z.inj_succ, IH.
  unfold sum_Z. simpl. lia.
Qed.

Lemma elem_of_tocsr m (k : nat * nat) (v : Z) :
  (k, v) ∈ entries (tocsr m) ↔
  k ∈ (entries m).*1 ∧ v = wrap64 (sum_Z (filter (λ e, e.1 = k) (entries m)).*2).
Proof.
  unfold tocsr. simpl. rewrite list_elem_of_fmap. split.
  - intros (k' & [= <- ->] & Hk).
    by rewrite (KeysFacts.elem_of_unique_sorted index_le) in Hk.
  - intros [Hk ->]. exists k. split; [done|].
    by rewrite (KeysFacts.elem_of_unique_sorted index_le).
Qed.

(** what the built matrix holds at the indices of a user and a product *)
Lemma built_matrix_pair df m (i j : nat) (pid uid : Z) :
  build_product_user_matrix df = Ok m →
  categories (product_id <$> df) !! i = Some pid →
  categories (user_id <$> df) !! j = Some uid →
  (i < (shape m).1)%nat ∧ (j < (shape m).2)%nat ∧
  (filter (λ e, e.1 = (i, j)) (entries m)).*2
  = quantity <$> filter (λ r, (user_id r, product_id r) = (uid, pid)) df ∧
  ((i, j) ∈ (entries m).*1 ↔ ∃ r, r ∈ df ∧ user_id r = uid ∧ product_id r = pid).
Proof.
  intros Hbuild Hi Hj.
  destruct (build_product_user_matrix_inv df m Hbuild)
    as (Hne & Hshape & Hentries & Hcodes).
  set (items := categories (product_id <$> df)) in *.
  set (users := categories (user_id <$> df)) in *.
  assert (NoDup items) as Hnd_i by apply KeysFacts.NoDup_unique_sorted.
  assert (NoDup users) as Hnd_u by apply KeysFacts.NoDup_unique_sorted.
  assert (∀ r, r ∈ df →
            (Z.to_nat (Keys.code_of items (product_id r)),
             Z.to_nat (Keys.code_of users (user_id r))) = (i, j)
            ↔ (user_id r, product_id r) = (uid, pid)) as Hpair.
  { intros r Hr. destruct (Hcodes r Hr) as [Hp Hu]. split.
    - intros [= <- <-]. congruence.
    - intros [= <- <-]. f_equal.
      + exact (NoDup_lookup _ _ _ _ Hnd_i Hp Hi).
      + exact (NoDup_lookup _ _ _ _ Hnd_u Hu Hj). }
  rewrite Hshape. simpl.
  split; [by eapply lookup_lt_Some|]. split; [by eapply lookup_lt_Some|].
  rewrite Hentries. split.
  - rewrite filter_fmap, <- list_fmap_compose. simpl.
    rewrite (filter_ext_in _ (λ r, (user_id r, product_id r) = (uid, pid)) df Hpair).
    by apply list_fmap_ext.
  - rewrite <- list_fmap_compose, list_elem_of_fmap. split.
    + intros (r & Heq & Hr). simpl in Heq. symmetry in Heq.
      apply (Hpair r Hr) in Heq as [= <- <-]. by exists r.
    + intros (r & Hr & <- & <-). exists r. split; [|done]. simpl.
      symmetry. by apply (Hpair r Hr).
Qed.
End duplicates.

(** C3: the occurrences of the same (user_id, product_id) pair are
    aggregated into a single entry whose count is the sum of the counts
    of the occurrences, at both places where the notebook aggregates.
    [get_user_product_prior_df] takes the rows of the join of the
    prior orders with the order lines, each of them one purchase: a
    pair gets one row, whose quantity is the sum of one per joined row
    of the pair.  [build_product_user_matrix],
    for every frame of (user_id, product_id, quantity) rows that is not
    empty, gives a matrix that as [csr] stores one entry per pair,
    holding the sum of the quantities of all rows of the pair (in
    [int64], hence the very sum when that fits): not the quantity of
    the last row and not the number of rows. *)
Theorem duplicate_pairs_are_summed
    (df_orders : list order_row) (df_ops : list order_product_row)
    (df : list user_product_row) :
  let prior := filter (λ o, o_eval_set o = "prior"%string) df_orders in
  let lines := merge_on_order_id prior df_ops in
  let counted := get_user_product_prior_df df_orders df_ops in
  NoDup ((λ r, (user_id r, product_id r)) <$> counted) ∧
  (∀ u p, (u, p) ∈ lines
          ↔ ∃ r, r ∈ counted ∧ user_id r = u ∧ product_id r = p) ∧
  (∀ r, r ∈ counted →
     quantity r
     = sum_Z ((λ _, 1) <$> filter (λ k, k = (user_id r, product_id r)) lines)) ∧
  (df ≠ [] →
   ∃ m, build_product_user_matrix df = Ok m ∧
        NoDup (entries (tocsr m)).*1 ∧
        ∀ (i j : nat) (pid uid : Z),
          categories (product_id <$> df) !! i = Some pid →
          categories (user_id <$> df) !! j = Some uid →
          let total :=
            sum_Z (quantity
                     <$> filter (λ r, (user_id r, product_id r) = (uid, pid)) df) in
          getitem (tocsr m) i j = Ok (wrap64 total) ∧
          (- 2 ^ 63 ≤ total < 2 ^ 63 → getitem (tocsr m) i j = Ok total) ∧
          ((∃ r, r ∈ df ∧ user_id r = uid ∧ product_id r = pid) →
           ((i, j), wrap64 total) ∈ entries (tocsr m))).
Proof.
  intros prior lines counted. unfold counted, get_user_product_prior_df.
  fold prior. fold lines.
  split; [|split; [|split]].
  - rewrite groupby_size_keys. apply KeysFacts.NoDup_unique_sorted.
  - intros u p. split.
    + intros Hin.
      exists {| user_id := u; product_id := p;
                quantity := Z.of_nat (Keys.occurrences (u, p) lines) |}.
      split; [|done]. by apply elem_of_groupby_size.
    + intros (r & Hr & <- & <-). by apply elem_of_groupby_size in Hr as [? _].
  - intros r Hr. apply elem_of_groupby_size in Hr as [_ ->].
    apply occurrences_sum_of_ones.
  - intros Hne.
    destruct (build_product_user_matrix df) as [m|e] eqn:Hbuild.
    2:{ by apply build_product_user_matrix_Raise in Hbuild as [? _]. }
    exists m. split; [done|]. split; [apply tocsr_NoDup|].
    intros i j pid uid Hi Hj. cbv zeta.
    set (total := sum_Z (quantity <$> _)).
    destruct (built_matrix_pair df m i j pid uid Hbuild Hi Hj)
      as (Hlt_i & Hlt_j & Hvalues & Hstored).
    assert (getitem (tocsr m) i j = Ok (wrap64 total)) as Hget.
    { rewrite getitem_tocsr. unfold getitem.
      rewrite decide_True by done. by rewrite Hvalues. }
    split; [done|]. split.
    + intros Hfits. by rewrite Hget, wrap64_small.
    + intros Hrow. apply elem_of_tocsr. split; [by apply Hstored|].
      by rewrite Hvalues.
Qed.

Lemma duplicate_pairs_are_summed_witness :
  get_user_product_prior_df Sample.df_orders Sample.df_order_products_prior
  = Sample.df_user_product_prior ∧
  ∃ m, build_product_user_matrix Sample.repeated_pair = Ok m ∧
       entries (tocsr m) = [((0%nat, 1%nat), 1); ((1%nat, 0%nat), 7)] ∧
       getitem (tocsr m) 1 0 = Ok 7.
Proof.
  split; [by vm_compute|].
  destruct (proj2 (proj2 (proj2
              (duplicate_pairs_are_summed Sample.df_orders
                 Sample.df_order_products_prior Sample.repeated_pair))))
    as (m & Hbuild & _ & Hpair); [done|].
  exists m. split; [done|].
  split; [vm_compute in Hbuild; injection Hbuild as <-; by vm_compute|].
  apply (Hpair 1%nat 0%nat 196 1); by vm_compute.
Defined.

(** the user x product matrix is the transpose of the product x user
    matrix: it reads the same values with the indices swapped, and the
    products stored in a user's row are those stored in the user's
    column *)
Theorem user_product_matrix_transposed (m : sparse_matrix) (u i : nat) :
  getitem (tocsr (transpose (tocsr m))) u i = getitem m i u ∧
  shape (tocsr (transpose (tocsr m))) = ((shape m).2, (shape m).1) ∧
  (∀ indices, row_indices (tocsr (transpose (tocsr m))) u = Ok indices →
              NoDup indices ∧ (i ∈ indices ↔ (i, u) ∈ (entries m).*1)).
Proof.
  split; [by rewrite getitem_tocsr, getitem_transpose, getitem_tocsr|].
  split; [done|]. intros indices Hrow. split.
  - eapply row_indices_NoDup; [apply tocsr_NoDup | exact Hrow].
  - by rewrite (elem_of_row_indices _ _ _ Hrow i), tocsr_keys, transpose_keys,
               tocsr_keys.
Qed.

Lemma user_product_matrix_transposed_witness :
  NoDup [0%nat; 2%nat] ∧
  (2%nat ∈ [0%nat; 2%nat]
   ↔ (2%nat, 0%nat)
     ∈ (entries {| shape := (3%nat, 2%nat);
                   entries := [((0%nat, 0%nat), 1); ((2%nat, 0%nat), 2);
                               ((1%nat, 1%nat), 1); ((2%nat, 1%nat), 1)] |}).*1).
Proof.
  apply (proj2 (proj2 (user_product_matrix_transposed
                         {| shape := (3%nat, 2%nat);
                            entries := [((0%nat, 0%nat), 1); ((2%nat, 0%nat), 2);
                                        ((1%nat, 1%nat), 1); ((2%nat, 1%nat), 1)] |}
                         0 2)) [0%nat; 2%nat]).
  by vm_compute.
Defined.

(** the sparsity of the matrix the notebook builds is a percentage: at
    least 0 and below 100; a matrix without rows or columns makes the
    division fail *)
Theorem sparsity_of_built_matrix (df : list user_product_row)
    (m empty : sparse_matrix) :
  (build_product_user_matrix df = Ok m →
   ∃ s, sparsity (tocsr m) = Ok s ∧ (0 <= s)%Q ∧ (s < 100)%Q) ∧
  ((shape empty).1 = 0%nat ∨ (shape empty).2 = 0%nat →
   sparsity empty = Raise "ZeroDivisionError").
Proof.
  split.
  - intros Hbuild.
    destruct (build_product_user_matrix_inv df m Hbuild)
      as (Hne & Hshape & Hentries & Hcodes).
    set (items := categories (product_id <$> df)) in *.
    set (users := categories (user_id <$> df)) in *.
    unfold sparsity. change (shape (tocsr m)) with (shape m). rewrite Hshape.
    simpl fst. simpl snd.
    set (stored := length (entries (tocsr m))).
    set (total := (length items * length users)%nat).
    assert (stored ≤ total)%nat as Hle.
    { unfold stored. rewrite <- (length_fmap fst).
      apply length_positions_bound; [apply tocsr_NoDup|].
      intros [i j] Hk. rewrite tocsr_keys, Hentries in Hk.
      rewrite <- list_fmap_compose in Hk.
      apply list_elem_of_fmap in Hk as (r & [= -> ->] & Hr).
      destruct (Hcodes r Hr) as [Hp Hu]. simpl.
      split; eapply lookup_lt_Some; [exact Hp | exact Hu]. }
    assert (0 < stored)%nat as Hpos.
    { unfold stored. rewrite <- (length_fmap fst).
      destruct df as [|r df']; [done|].
      destruct ((entries (tocsr m)).*1) as [|k ks] eqn:Hkeys; [|simpl; lia].
      assert ((Z.to_nat (Keys.code_of items (product_id r)),
               Z.to_nat (Keys.code_of users (user_id r)))
              ∈ (entries (tocsr m)).*1) as Hin.
      { apply tocsr_keys. rewrite Hentries, fmap_cons. left. }
      rewrite Hkeys in Hin. by apply elem_of_nil in Hin. }
    rewrite decide_False by lia. eexists. split; [done|].
    assert (0 < inject_Z (Z.of_nat total))%Q as Ht
      by (change 0%Q with (inject_Z 0); rewrite <- Zlt_Qlt; lia).
    assert (0 < inject_Z (Z.of_nat stored) / inject_Z (Z.of_nat total))%Q as H0.
    { apply Qlt_shift_div_l; [done|]. rewrite Qmult_0_l.
      change 0%Q with (inject_Z 0). rewrite <- Zlt_Qlt. lia. }
    assert (inject_Z (Z.of_nat stored) / inject_Z (Z.of_nat total) <= 1)%Q as H1.
    { apply Qle_shift_div_r; [done|]. rewrite Qmult_1_l.
      rewrite <- Zle_Qle. lia. }
    split; lra.
  - intros Hzero. unfold sparsity. rewrite decide_True; [done|].
    destruct Hzero as [-> | ->]; lia.
Qed.

Lemma sparsity_of_built_matrix_witness :
  (∃ s, sparsity
          (tocsr {| shape := (3%nat, 2%nat);
                    entries := [((0%nat, 0%nat), 1); ((2%nat, 0%nat), 2);
                                ((1%nat, 1%nat), 1); ((2%nat, 1%nat), 1)] |})
        = Ok s ∧ (0 <= s)%Q ∧ (s < 100)%Q) ∧
  sparsity {| shape := (0%nat, 4%nat); entries := [] |} = Raise "ZeroDivisionError".
Proof.
  pose proof (sparsity_of_built_matrix Sample.df_user_product_prior
                {| shape := (3%nat, 2%nat);
                   entries := [((0%nat, 0%nat), 1); ((2%nat, 0%nat), 2);
                               ((1%nat, 1%nat), 1); ((2%nat, 1%nat), 1)] |}
                {| shape := (0%nat, 4%nat); entries := [] |}) as [Hbuilt Hempty].
  split; [apply Hbuilt; by vm_compute | apply Hempty; by left].
Defined.

(** ** Popularity counts *)

(** [value_counts] lists every product of the column once, with a count
    of at least one; the counts add up to the number of rows *)
Theorem value_counts_total (col : list Z) :
  NoDup (value_counts col).*1 ∧
  (∀ x, x ∈ (value_counts col).*1 ↔ x ∈ col) ∧
  (∀ x c, (x, c) ∈ value_counts col →
          c = Keys.occurrences x col ∧ (1 ≤ c)%nat) ∧
  sum_list (value_counts col).*2 = length col.
Proof.
  assert (stable_sort (count_ge col) (first_seen col) ≡ₚ remove_dups col) as Hperm
    by apply value_counts_keys_Permutation.
  rewrite value_counts_keys.
  split; [rewrite Hperm; apply NoDup_remove_dups|].
  split; [intros x; rewrite Hperm; apply elem_of_remove_dups|].
  split.
  - intros x c Hin. unfold value_counts in Hin.
    apply list_elem_of_fmap in Hin as (y & [= -> ->] & Hy). split; [done|].
    rewrite Hperm, elem_of_remove_dups in Hy.
    by apply KeysFacts.occurrences_pos in Hy.
  - unfold value_counts. rewrite <- list_fmap_compose.
    erewrite (list_fmap_ext _ (λ k, Keys.occurrences k col)); [|by intros].
    rewrite Hperm. apply sum_occurrences; [apply NoDup_remove_dups|].
    intros x. by rewrite elem_of_remove_dups.
Qed.

Lemma value_counts_total_witness :
  (1 : nat) = Keys.occurrences (50 : Z) [196; 196; 50; 77; 196; 77]
  ∧ (1 ≤ 1)%nat.
Proof.
  apply (proj1 (proj2 (proj2 (value_counts_total [196; 196; 50; 77; 196; 77])))
           50 1%nat).
  vm_compute. do 2 right. left.
Defined.

(** with a product table that lists each product id once, the popular
    products are those of the order lines alone: joining the table
    changes no count *)
Theorem get_k_popular_ignores_product_table (k : nat)
    (df_order_products_prior : list order_product_row)
    (df_products : list product_row) :
  NoDup (p_product_id <$> df_products) →
  get_k_popular k (merge_products_left df_order_products_prior df_products)
  = (take k (value_counts (op_product_id <$> df_order_products_prior))).*1.
Proof.
  intros Hnd. unfold get_k_popular.
  by rewrite merge_products_left_column.
Qed.

Lemma get_k_popular_ignores_product_table_witness :
  get_k_popular 2 (merge_products_left Sample.df_order_products_prior
                     Sample.df_products)
  = (take 2 (value_counts (op_product_id <$> Sample.df_order_products_prior))).*1.
Proof.
  apply (get_k_popular_ignores_product_table 2 Sample.df_order_products_prior
           Sample.df_products).
  vm_compute. repeat constructor; rewrite ?elem_of_cons, ?elem_of_nil; intuition lia.
Defined.

(** ** Recommendation: ranking, length and bounds *)

Global Instance score_ge_total : Total score_ge.
Proof.
  intros a b. unfold score_ge.
  destruct (Qlt_le_dec a.2 b.2) as [?%Qlt_le_weak|?]; [by right | by left].
Qed.

Global Instance score_ge_trans : Transitive score_ge.
Proof. intros a b c. unfold score_ge. intros ? ?. by eapply Qle_trans. Qed.

Section ranking.
Implicit Types (l best : list (nat * Q)) (liked : gset nat).

Lemma StronglySorted_sublist {A} (R : relation A) (l k : list A) :
  l `sublist_of` k → StronglySorted R k → StronglySorted R l.
Proof.
  induction 1 as [|x l k Hsub IH|x l k Hsub IH]; intros Hk; [done|..].
  - apply StronglySorted_cons in Hk as [Hall Hk]. constructor; [by apply IH|].
    rewrite Forall_forall in Hall |- *. intros y Hy. apply Hall.
    by eapply elem_of_sublist.
  - apply StronglySorted_cons in Hk as [_ Hk]. by apply IH.
Qed.

Lemma elem_of_enumerate {A} (xs : list A) (i : nat) (x : A) :
  (i, x) ∈ enumerate xs ↔ xs !! i = Some x.
Proof.
  unfold enumerate. rewrite elem_of_lookup_imap. split.
  - by intros (j & y & [= -> ->] & Hj).
  - intros Hi. by exists i, x.
Qed.

Lemma recommend_inv (model : als_model) (u : nat) (user_items : sparse_matrix)
    (N : nat) res :
  recommend model u user_items N = Ok res →
  ∃ user history best,
    user_factors model !! u = Some user ∧
    row_indices user_items u = Ok history ∧
    res = take N (filter (λ r : nat * Q, r.1 ∉ (list_to_set history : gset nat)) best) ∧
    StronglySorted score_ge best ∧
    NoDup best.*1 ∧
    (∀ r, r ∈ best → r ∈ enumerate (dot user <$> item_factors model)) ∧
    (∀ r x, r ∈ best → x ∈ enumerate (dot user <$> item_factors model) →
            x ∉ best → score_ge r x) ∧
    (N `min` length (filter (λ r : nat * Q, r.1 ∉ (list_to_set history : gset nat)) best)
     = N `min` length (filter (λ i, i ∉ history)
                         (seq 0 (length (item_factors model)))))%nat.
Proof.
  unfold recommend.
  destruct (user_factors model !! u) as [user|] eqn:Huser; [|done]. simpl.
  destruct (row_indices user_items u) as [history|] eqn:Hrow; [|done]. simpl.
  set (liked := list_to_set history : gset nat).
  set (scores := dot user <$> item_factors model).
  set (all := enumerate scores).
  assert (length scores = length (item_factors model)) as Hlen by apply length_fmap.
  assert (all.*1 = seq 0 (length scores)) as Hall by apply enumerate_indices.
  assert (length all = length scores) as Hlall by apply length_imap.
  assert (NoDup all.*1) as Hnd_all by (rewrite Hall; apply NoDup_seq).
  assert (length (filter (λ r : nat * Q, r.1 ∉ liked) all)
          = length (filter (λ i, i ∉ history) (seq 0 (length (item_factors model)))))
    as Hnon by (rewrite <- Hlen; apply filter_not_liked_enumerate).
  intros [= <-]. exists user, history.
  destruct (decide (N + size liked < length scores)%nat) as [Hlt|Hge].
  - unfold argpartition_top. fold all.
    set (S := sorted_by_score all).
    assert (StronglySorted score_ge S) as HS
      by (apply StronglySorted_stable_sort; apply _).
    remember (take (N + size liked) S) as T eqn:HeqT.
    assert (T `sublist_of` S) as HT by (rewrite HeqT; apply sublist_take).
    assert (NoDup T.*1) as HndT.
    { apply (sublist_NoDup _ S.*1); [|by apply fmap_sublist].
      unfold S. by rewrite sorted_by_score_Permutation. }
    assert (length T = (N + size liked)%nat) as HlT.
    { rewrite HeqT, length_take_le; [done|]. unfold S.
      rewrite (Permutation_length (sorted_by_score_Permutation all)). lia. }
    exists (sorted_by_score T). fold scores. fold all. fold liked.
    split; [done|]. split; [done|]. split; [done|].
    split; [apply StronglySorted_stable_sort; apply _|].
    split; [by rewrite sorted_by_score_Permutation|].
    split; [|split].
    + intros r. rewrite sorted_by_score_Permutation. intros Hr.
      rewrite <- (sorted_by_score_Permutation all). by eapply elem_of_sublist.
    + intros r x. rewrite !sorted_by_score_Permutation. intros Hr Hx Hnx.
      rewrite <- (sorted_by_score_Permutation all) in Hx. fold S in Hx.
      rewrite <- (take_drop (N + size liked) S), <- HeqT in Hx, HS.
      apply elem_of_app in Hx as [?|Hx]; [done|].
      by eapply StronglySorted_app_1_elem_of.
    + rewrite sorted_by_score_Permutation.
      pose proof (length_filter_not_liked T liked HndT).
      pose proof (length_filter_not_liked all liked Hnd_all).
      rewrite <- Hnon. lia.
  - exists (sorted_by_score all). fold scores. fold all. fold liked.
    split; [done|]. split; [done|]. split; [done|].
    split; [apply StronglySorted_stable_sort; apply _|].
    split; [by rewrite sorted_by_score_Permutation|].
    split; [|split].
    + intros r. by rewrite sorted_by_score_Permutation.
    + intros r x _ Hx Hnx. destruct Hnx. by rewrite sorted_by_score_Permutation.
    + by rewrite sorted_by_score_Permutation, Hnon.
Qed.
End ranking.

(** the recommendations come best first, each with the score of its
    item against the user's factors, and no item left out that the user
    has not bought scores higher than a recommended one *)
Theorem recommend_ranked (model : als_model) (u : nat)
    (user_items : sparse_matrix) (N : nat) (res : list (nat * Q)) :
  recommend model u user_items N = Ok res →
  ∃ user history,
    user_factors model !! u = Some user ∧
    row_indices user_items u = Ok history ∧
    StronglySorted score_ge res ∧
    (∀ i s, (i, s) ∈ res →
            ∃ y, item_factors model !! i = Some y ∧ s = dot user y) ∧
    (∀ r j y, r ∈ res → item_factors model !! j = Some y →
              j ∉ history → j ∉ res.*1 → (dot user y <= r.2)%Q).
Proof.
  intros Hrec.
  destruct (recommend_inv _ _ _ _ _ Hrec)
    as (user & history & best & Huser & Hrow & -> & Hsorted & Hnd & Hin & Htop & _).
  exists user, history. split; [done|]. split; [done|].
  set (F := filter (λ r : nat * Q, r.1 ∉ (list_to_set history : gset nat)) best).
  assert (StronglySorted score_ge F) as HF
    by (eapply StronglySorted_sublist; [apply sublist_filter | done]).
  split; [|split].
  - eapply StronglySorted_sublist; [apply sublist_take | done].
  - intros i s His.
    apply subseteq_take, list_elem_of_filter in His as [_ His].
    apply Hin, elem_of_enumerate in His. rewrite list_lookup_fmap in His.
    destruct (item_factors model !! i) as [y|]; [|done].
    injection His as <-. by exists y.
  - intros r j y Hr Hj Hhist Hres.
    assert ((j, dot user y) ∈ enumerate (dot user <$> item_factors model)) as Hx
      by (apply elem_of_enumerate; by rewrite list_lookup_fmap, Hj).
    change (score_ge r (j, dot user y)).
    destruct (decide (j ∈ best.*1)) as [Hbest|Hbest].
    + apply list_elem_of_fmap in Hbest as ([j' s'] & -> & Hbest). simpl in *.
      assert (s' = dot user y) as ->.
      { apply Hin, elem_of_enumerate in Hbest. apply elem_of_enumerate in Hx.
        congruence. }
      assert ((j', dot user y) ∈ F) as HxF.
      { apply list_elem_of_filter. split; [|done]. simpl.
        by rewrite elem_of_list_to_set. }
      rewrite <- (take_drop N F) in HxF, HF.
      apply elem_of_app in HxF as [HxF|HxF].
      * destruct Hres. by apply (list_elem_of_fmap_2 fst) in HxF.
      * by eapply StronglySorted_app_1_elem_of.
    + apply Htop; [|done|].
      * by apply subseteq_take, list_elem_of_filter in Hr as [_ ?].
      * intros Hx'. apply Hbest. by apply (list_elem_of_fmap_2 fst) in Hx'.
Qed.

Lemma recommend_ranked_witness :
  ∃ user history,
    user_factors Sample.model !! 0%nat = Some user ∧
    row_indices (user_product_matrix SampleTest.three_users) 0 = Ok history ∧
    StronglySorted score_ge [(2%nat, 6 # 2); (1%nat, 2 # 2)] ∧
    (∀ i s, (i, s) ∈ [(2%nat, 6 # 2); (1%nat, 2 # 2)] →
            ∃ y, item_factors Sample.model !! i = Some y ∧ s = dot user y) ∧
    (∀ r j y, r ∈ [(2%nat, 6 # 2); (1%nat, 2 # 2)] →
              item_factors Sample.model !! j = Some y →
              j ∉ history → j ∉ [(2%nat, 6 # 2); (1%nat, 2 # 2)].*1 →
              (dot user y <= r.2)%Q).
Proof.
  apply (recommend_ranked Sample.model 0
           (user_product_matrix SampleTest.three_users) 2).
  by vm_compute.
Defined.

(** an index outside the factor rows or the matrix rows raises
    [IndexError]; otherwise as many items are returned as were asked
    for, or all that the user has not bought when these are fewer *)
Theorem recommend_length (model : als_model) (u : nat)
    (user_items : sparse_matrix) (N : nat) :
  ((length (user_factors model) ≤ u)%nat ∨ ((shape user_items).1 ≤ u)%nat →
   recommend model u user_items N = Raise "IndexError") ∧
  (∀ res history,
     recommend model u user_items N = Ok res →
     row_indices user_items u = Ok history →
     length res
     = (N `min` length (filter (λ i, i ∉ history)
                          (seq 0 (length (item_factors model)))))%nat).
Proof.
  split.
  - intros Hout. unfold recommend.
    destruct (user_factors model !! u) as [user|] eqn:Huser; [|done]. simpl.
    apply lookup_lt_Some in Huser.
    destruct Hout as [?|Hout]; [lia|].
    unfold row_indices. rewrite decide_False by lia. done.
  - intros res history Hrec Hrow.
    destruct (recommend_inv _ _ _ _ _ Hrec)
      as (user & history' & best & _ & Hrow' & -> & _ & _ & _ & _ & Hmin).
    rewrite Hrow in Hrow'. injection Hrow' as <-.
    by rewrite length_take.
Qed.

Lemma recommend_length_witness :
  recommend Sample.model 5 (user_product_matrix Sample.globals) 3
  = Raise "IndexError" ∧
  length [(0%nat, 1%Q)]
  = (3 `min` length (filter (λ i, i ∉ [1%nat; 2%nat])
                       (seq 0 (length (item_factors Sample.model)))))%nat.
Proof.
  split.
  - apply (proj1 (recommend_length Sample.model 5
                    (user_product_matrix Sample.globals) 3)).
    left. vm_compute. lia.
  - apply (proj2 (recommend_length Sample.model 1
                    (user_product_matrix Sample.globals) 3)); by vm_compute.
Defined.

(** ** Evaluation of one test row *)

Section evaluation_rows.
Implicit Types (nb : notebook) (row : test_row).

Lemma run_notebook_inv orders ops products model nb :
  run_notebook orders ops products model = Ok nb →
  let df := get_user_product_prior_df orders ops in
  ∃ m, build_product_user_matrix df = Ok m ∧
       u_dict nb = make_u_dict (categories (user_id <$> df)) ∧
       p_dict nb = make_p_dict (categories (product_id <$> df)) ∧
       user_product_matrix nb = tocsr (transpose (tocsr m)) ∧
       popular_products nb = get_k_popular N_REC (merge_products_left ops products) ∧
       imf_model nb = model.
Proof.
  intros Hrun df. unfold run_notebook in Hrun. fold df in Hrun.
  destruct (build_product_user_matrix df) as [m|] eqn:Hbuild; [|done].
  simpl in Hrun. injection Hrun as <-. by exists m.
Qed.

Lemma recall_score_unit (actual pred : list Z) :
  (0 <= recall_score actual pred)%Q ∧ (recall_score actual pred <= 1)%Q.
Proof.
  destruct actual as [|a actual]; [by split|].
  destruct (recall_score_fraction (a :: actual) pred)
    as (k & n & _ & _ & Hk & Hn & ->); [done|].
  assert (0 < inject_Z n)%Q as HnQ
    by (change 0%Q with (inject_Z 0); rewrite <- Zlt_Qlt; lia).
  split.
  - apply Qle_shift_div_l; [done|]. rewrite Qmult_0_l.
    change 0%Q with (inject_Z 0). rewrite <- Zle_Qle. lia.
  - apply Qle_shift_div_r; [done|]. rewrite Qmult_1_l.
    rewrite <- Zle_Qle. lia.
Qed.

Lemma mapM_dict_get_fst_total (d : gmap nat Z) (l : list (nat * Q)) :
  (∀ r, r ∈ l → is_Some (d !! r.1)) →
  ∃ vs, mapM (λ r : nat * Q, dict_get d r.1) l = Ok vs.
Proof.
  induction l as [|r l IH]; intros Hl; [by exists []|].
  destruct (Hl r) as [v Hv]; [left|].
  destruct IH as [vs Hvs]; [intros r' ?; apply Hl; by right|].
  exists (v :: vs). apply dict_get_Ok in Hv. simpl. rewrite Hv. simpl.
  by rewrite Hvs.
Qed.

Lemma elem_of_merge_on_order_id orders ops (u p : Z) :
  (u, p) ∈ merge_on_order_id orders ops ↔
  ∃ o l, o ∈ orders ∧ l ∈ ops ∧ op_order_id l = o_order_id o
         ∧ o_user_id o = u ∧ op_product_id l = p.
Proof.
  unfold merge_on_order_id. rewrite list_elem_of_bind. split.
  - intros (o & Hin & Ho). apply list_elem_of_bind in Hin as (l & Hin & Hl).
    apply list_elem_of_singleton in Hin as [= -> ->].
    apply list_elem_of_filter in Hl as [Heq Hl]. by exists o, l.
  - intros (o & l & Ho & Hl & Heq & <- & <-). exists o. split; [|done].
    apply list_elem_of_bind. exists l. split; [left|].
    by apply list_elem_of_filter.
Qed.
End evaluation_rows.

(** for a row whose products cell reads as a list of integers, the
    basket: [new_products] never returns a product outside the basket;
    on the globals the notebook computes, a known user's new products
    are the basket products that occur in none of the user's prior
    orders *)
Theorem new_products_are_unbought (nb : notebook) (row : test_row)
    (basket : list Z) :
  parse_products (t_products row) = Ok basket →
  (∀ actual, new_products nb row = Ok actual →
             ∀ p, p ∈ actual → p ∈ basket) ∧
  (∀ orders ops products model,
     run_notebook orders ops products model = Ok nb →
     is_Some (u_dict nb !! t_user_id row) →
     ∃ actual,
       new_products nb row = Ok actual ∧
       ∀ p, p ∈ actual ↔
            p ∈ basket ∧
            ¬ ∃ o l, o ∈ orders ∧ l ∈ ops ∧ o_eval_set o = "prior"%string
                     ∧ op_order_id l = o_order_id o
                     ∧ o_user_id o = t_user_id row ∧ op_product_id l = p).
Proof.
  intros Hparse. split.
  - intros actual Hnew p Hp.
    apply new_products_Ok in Hnew
      as (basket' & _ & _ & liked & Hparse' & _ & _ & _ & ->).
    rewrite Hparse in Hparse'. injection Hparse' as <-.
    apply elem_of_difference in Hp as [Hp _].
    by apply elem_of_list_to_set in Hp.
  - intros orders ops products model Hrun [u Hu].
    destruct (new_products_run_notebook _ _ _ _ _ row u basket Hrun Hparse Hu)
      as (actual & Hnew & Hiff).
    exists actual. split; [done|]. intros p. rewrite Hiff.
    apply and_iff_compat_l, not_iff_compat.
    unfold get_user_product_prior_df. split.
    + intros (r & [Hin _]%elem_of_groupby_size & Huid & Hpid).
      rewrite Huid, Hpid in Hin.
      apply elem_of_merge_on_order_id in Hin as (o & l & Ho & Hl & Heq & ? & ?).
      apply list_elem_of_filter in Ho as [Hprior Ho]. by exists o, l.
    + intros (o & l & Ho & Hl & Hprior & Heq & Huid & Hpid).
      exists {| user_id := t_user_id row; product_id := p;
                quantity := Z.of_nat
                  (Keys.occurrences (t_user_id row, p)
                     (merge_on_order_id
                        (filter (λ o, o_eval_set o = "prior"%string) orders) ops)) |}.
      split; [|done]. apply elem_of_groupby_size. split; [|done]. simpl.
      apply elem_of_merge_on_order_id. exists o, l.
      split; [by apply list_elem_of_filter|done].
Qed.

Lemma new_products_are_unbought_witness :
  ∃ actual,
    new_products Sample.globals Sample.basket_of_user_2 = Ok actual ∧
    ∀ p, p ∈ actual ↔
         p ∈ [77; 50; 999] ∧
         ¬ ∃ o l, o ∈ Sample.df_orders ∧ l ∈ Sample.df_order_products_prior
                  ∧ o_eval_set o = "prior"%string
                  ∧ op_order_id l = o_order_id o
                  ∧ o_user_id o = t_user_id Sample.basket_of_user_2
                  ∧ op_product_id l = p.
Proof.
  apply (proj2 (new_products_are_unbought Sample.globals Sample.basket_of_user_2
                  [77; 50; 999] eq_refl)
           Sample.df_orders Sample.df_order_products_prior Sample.df_products
           Sample.model).
  - by vm_compute.
  - exists 1%nat. by vm_compute.
Defined.

(** on the globals the notebook computes, with a model that has a row
    for every user of the matrix and no more item rows than the matrix
    has products, a test row of a known user whose products cell reads
    as a list of integers gets both scores, each between 0 and 1 *)
Theorem evaluation_of_known_user (nb : notebook) (row : test_row)
    (orders : list order_row) (ops : list order_product_row)
    (products : list product_row) (model : als_model) (basket : list Z) :
  run_notebook orders ops products model = Ok nb →
  parse_products (t_products row) = Ok basket →
  is_Some (u_dict nb !! t_user_id row) →
  ((shape (user_product_matrix nb)).1 ≤ length (user_factors model))%nat →
  (length (item_factors model) ≤ (shape (user_product_matrix nb)).2)%nat →
  ∃ popular imf,
    popular_recommend nb row = Ok popular ∧
    imf_recommend nb row = Ok imf ∧
    (0 <= popular)%Q ∧ (popular <= 1)%Q ∧ (0 <= imf)%Q ∧ (imf <= 1)%Q.
Proof.
  intros Hrun Hparse [u Hu] Husers Hitems.
  destruct (new_products_run_notebook _ _ _ _ _ row u basket Hrun Hparse Hu)
    as (actual & Hnew & _).
  destruct (run_notebook_inv _ _ _ _ _ Hrun)
    as (m & Hbuild & _ & Hp & Hupm & _ & Hmodel).
  destruct (build_product_user_matrix_inv _ _ Hbuild) as (_ & Hshape & _ & _).
  destruct (new_products_Ok nb row actual Hnew)
    as (_ & u' & indices & liked & _ & Hu' & Hrow & _ & _).
  rewrite Hu in Hu'. injection Hu' as <-.
  assert (u < (shape (user_product_matrix nb)).1)%nat as Hlt.
  { unfold row_indices in Hrow. by destruct (decide _). }
  destruct (lookup_lt_is_Some_2 (user_factors model) u) as [user Huser]; [lia|].
  destruct (recommend model u (user_product_matrix nb) N_REC) as [res|] eqn:Hrec.
  2:{ unfold recommend in Hrec. rewrite Huser, Hrow in Hrec. done. }
  destruct (recommend_inv _ _ _ _ _ Hrec)
    as (user' & history & best & Huser' & _ & Hres & _ & _ & Hin & _).
  rewrite Huser in Huser'. injection Huser' as <-.
  destruct (mapM_dict_get_fst_total (p_dict nb) res) as [ids Hids].
  { intros [i s] Hr. rewrite Hp, make_p_dict_lookup. simpl.
    apply lookup_lt_is_Some.
    rewrite Hres in Hr. apply subseteq_take, list_elem_of_filter in Hr as [_ Hr].
    apply Hin, elem_of_enumerate in Hr. apply lookup_lt_Some in Hr.
    rewrite length_fmap in Hr.
    rewrite Hupm in Hitems. simpl in Hitems. rewrite Hshape in Hitems.
    simpl in Hitems. lia. }
  exists (recall_score (elements actual) (popular_products nb)),
         (recall_score (elements actual) ids).
  split; [unfold popular_recommend; by rewrite Hnew|].
  split.
  { unfold imf_recommend. rewrite Hnew. simpl.
    apply dict_get_Ok in Hu. rewrite Hu. simpl.
    rewrite Hmodel, Hrec. simpl. by rewrite Hids. }
  pose proof (recall_score_unit (elements actual) (popular_products nb)) as [? ?].
  pose proof (recall_score_unit (elements actual) ids) as [? ?].
  done.
Qed.

Lemma evaluation_of_known_user_witness :
  ∃ popular imf,
    popular_recommend Sample.globals Sample.basket_of_user_2 = Ok popular ∧
    imf_recommend Sample.globals Sample.basket_of_user_2 = Ok imf ∧
    (0 <= popular)%Q ∧ (popular <= 1)%Q ∧ (0 <= imf)%Q ∧ (imf <= 1)%Q.
Proof.
  apply (evaluation_of_known_user Sample.globals Sample.basket_of_user_2
           Sample.df_orders Sample.df_order_products_prior Sample.df_products
           Sample.model [77; 50; 999]).
  - by vm_compute.
  - by vm_compute.
  - exists 1%nat. by vm_compute.
  - vm_compute. lia.
  - vm_compute. lia.
Defined.

(** a user the matrix knows but the model has no factor row for makes
    the model's score fail with [IndexError], while the baseline score
    is still computed *)
Theorem imf_recommend_unfitted_user (nb : notebook) (row : test_row)
    (u : nat) (actual : gset Z) :
  new_products nb row = Ok actual →
  u_dict nb !! t_user_id row = Some u →
  (length (user_factors (imf_model nb)) ≤ u)%nat →
  imf_recommend nb row = Raise "IndexError" ∧
  popular_recommend nb row
  = Ok (recall_score (elements actual) (popular_products nb)).
Proof.
  intros Hnew Hu Hshort. split.
  - unfold imf_recommend. rewrite Hnew. simpl.
    apply dict_get_Ok in Hu. rewrite Hu. simpl.
    unfold recommend. by rewrite lookup_ge_None_2.
  - unfold popular_recommend. by rewrite Hnew.
Qed.

Lemma imf_recommend_unfitted_user_witness :
  imf_recommend SampleTest.three_users SampleTest.basket_of_third_user
  = Raise "IndexError" ∧
  popular_recommend SampleTest.three_users SampleTest.basket_of_third_user
  = Ok (recall_score (elements (list_to_set [50; 77] : gset Z))
          (popular_products SampleTest.three_users)).
Proof.
  apply (imf_recommend_unfitted_user SampleTest.three_users
           SampleTest.basket_of_third_user 2 (list_to_set [50; 77])).
  - by vm_compute.
  - by vm_compute.
  - vm_compute. lia.
Defined.

(** ** The held-out baskets *)

Section held_out.
Implicit Types (orders : list order_row) (lines : list order_product_row)
  (ids : list Z).

Lemma length_remove_dups_le ids : (length (remove_dups ids) ≤ length ids)%nat.
Proof.
  induction ids as [|x ids IH]; [done|]. simpl.
  destruct (decide_rel _ _ _); simpl; lia.
Qed.

Lemma unique_count_eq_length ids : unique_count ids = length ids ↔ NoDup ids.
Proof.
  unfold unique_count. induction ids as [|x ids IH]; [by split; [constructor|]|].
  pose proof (length_remove_dups_le ids). simpl.
  destruct (decide_rel _ _ _) as [Hin|Hnin]; simpl.
  - split; [lia|]. by intros [? _]%NoDup_cons.
  - rewrite NoDup_cons, <- IH. split; [intros ?; split; [done|lia] | intros [_ ?]; lia].
Qed.

Lemma length_groupby_products lines :
  length (groupby_products lines) = unique_count (op_order_id <$> lines).
Proof.
  unfold groupby_products, unique_count, Keys.unique_sorted.
  by rewrite length_fmap, merge_sort_Permutation.
Qed.

(** the join of the held-out orders with the grouped lines, when it is
    reached *)
Lemma merge_groupby_products (current : list order_row) lines :
  (l ← current;
   r ← filter (λ r : Z * list Z, r.1 = o_order_id l) (groupby_products lines);
   [{| t_user_id := o_user_id l; t_products := r.2 |}])
  = (λ o, {| t_user_id := o_user_id o;
             t_products := op_product_id
                             <$> filter (λ l, op_order_id l = o_order_id o) lines |})
      <$> filter (λ o, o_order_id o ∈ op_order_id <$> lines) current.
Proof.
  induction current as [|o current IH]; [done|].
  rewrite bind_cons, IH, filter_cons. unfold groupby_products at 1.
  rewrite (filter_keyed
             (λ k, op_product_id <$> filter (λ l, op_order_id l = k) lines)
             (Keys.unique_sorted Z.le (op_order_id <$> lines)) (o_order_id o))
    by apply KeysFacts.NoDup_unique_sorted.
  destruct (decide (o_order_id o ∈ op_order_id <$> lines)) as [Hin|Hnin].
  - rewrite decide_True by (by apply (KeysFacts.elem_of_unique_sorted Z.le)).
    done.
  - rewrite decide_False; [done|].
    by rewrite (KeysFacts.elem_of_unique_sorted Z.le).
Qed.
End held_out.

(** [make_test_data] passes its two checks exactly when no held-out
    order id is repeated in the orders and the held-out orders are as
    many as the distinct order ids of the lines; otherwise it stops
    with [AssertionError] *)
Theorem make_test_data_checks (df_orders : list order_row)
    (df_order_products_train : list order_product_row) :
  let current := filter (λ o, o_eval_set o = "train"%string) df_orders in
  let passes :=
    NoDup (o_order_id <$> current)
    ∧ length current = unique_count (op_order_id <$> df_order_products_train) in
  (passes → ∃ rows, make_test_data df_orders df_order_products_train = Ok rows) ∧
  (¬ passes →
   make_test_data df_orders df_order_products_train = Raise "AssertionError").
Proof.
  intros current passes. unfold make_test_data. fold current.
  rewrite length_groupby_products.
  pose proof (unique_count_eq_length (o_order_id <$> current)) as Huniq.
  rewrite length_fmap in Huniq.
  split.
  - intros [Hnd Hlen]. apply Huniq in Hnd.
    rewrite decide_False by lia. rewrite decide_False by lia. by eexists.
  - intros Hfail. destruct (decide (unique_count _ ≠ unique_count _)); [done|].
    rewrite decide_True; [done|]. intros Hsize. apply Hfail.
    split; [apply Huniq|]; lia.
Qed.

Lemma make_test_data_checks_witness :
  (∃ rows, make_test_data Sample.df_orders SampleTest.df_order_products_train
           = Ok rows) ∧
  make_test_data Sample.df_orders Sample.df_order_products_prior
  = Raise "AssertionError".
Proof.
  split.
  - apply (proj1 (make_test_data_checks Sample.df_orders
                    SampleTest.df_order_products_train)).
    split; [|by vm_compute]. vm_compute. repeat constructor. by intros ?%elem_of_nil.
  - apply (proj2 (make_test_data_checks Sample.df_orders
                    Sample.df_order_products_prior)).
    intros [_ Hlen]. vm_compute in Hlen. lia.
Defined.

(** when [make_test_data] succeeds, it gives one basket per held-out
    order that has lines, in the order of the orders table, holding the
    products of the order in file order; a held-out order without lines
    is left out, and no basket is empty *)
Theorem make_test_data_rows (df_orders : list order_row)
    (df_order_products_train : list order_product_row)
    (rows : list (frame_row (list Z))) :
  make_test_data df_orders df_order_products_train = Ok rows →
  rows
  = (λ o, {| t_user_id := o_user_id o;
             t_products :=
               op_product_id
                 <$> filter (λ l, op_order_id l = o_order_id o)
                       df_order_products_train |})
      <$> filter (λ o, o_order_id o ∈ op_order_id <$> df_order_products_train)
            (filter (λ o, o_eval_set o = "train"%string) df_orders) ∧
  Forall (λ r, t_products r ≠ []) rows.
Proof.
  unfold make_test_data.
  destruct (decide (unique_count _ ≠ unique_count _)); [done|].
  destruct (decide (_ ≠ _)); [done|]. intros [= <-].
  rewrite merge_groupby_products. split; [done|].
  apply Forall_fmap, Forall_forall. intros o [Hin _]%list_elem_of_filter. simpl.
  apply list_elem_of_fmap in Hin as (l & Heq & Hl).
  intros Hnil%fmap_nil_inv.
  assert (l ∈ filter (λ l, op_order_id l = o_order_id o) df_order_products_train)
    as Hl' by (by apply list_elem_of_filter).
  rewrite Hnil in Hl'. by apply elem_of_nil in Hl'.
Qed.

Lemma make_test_data_rows_witness :
  SampleTest.df_user_products_test
  = (λ o, {| t_user_id := o_user_id o;
             t_products :=
               op_product_id
                 <$> filter (λ l, op_order_id l = o_order_id o)
                       SampleTest.df_order_products_train |})
      <$> filter (λ o, o_order_id o ∈ op_order_id <$> SampleTest.df_order_products_train)
            (filter (λ o, o_eval_set o = "train"%string) Sample.df_orders) ∧
  Forall (λ r, t_products r ≠ []) SampleTest.df_user_products_test.
Proof.
  apply (make_test_data_rows Sample.df_orders SampleTest.df_order_products_train).
  by vm_compute.
Defined.

(** ** Reading the test frame back *)

Section read_back.
Lemma is_digit_range c : is_digit c = true ↔ (48 ≤ nat_of_ascii c ≤ 57)%nat.
Proof. unfold is_digit. by rewrite bool_decide_eq_true. Qed.

Lemma is_digit_not_space c : is_digit c = true → is_space c = false.
Proof.
  rewrite is_digit_range. intros Hc. unfold is_space.
  rewrite bool_decide_eq_false. lia.
Qed.

Lemma num_char_not_space c : num_char c → is_space c = false.
Proof. intros [?| ->]; [by apply is_digit_not_space | done]. Qed.

Lemma num_char_not_comma c : num_char c → c ≠ ","%char.
Proof. intros [Hc| ->]; [|done]. intros ->. done. Qed.

Lemma digit_char_spec d :
  0 ≤ d < 10 → is_digit (digit_char d) = true ∧ digit_value (digit_char d) = d.
Proof.
  intros Hd.
  assert (d = 0 ∨ d = 1 ∨ d = 2 ∨ d = 3 ∨ d = 4 ∨ d = 5 ∨ d = 6 ∨ d = 7
          ∨ d = 8 ∨ d = 9) as Hcases by lia.
  repeat (destruct Hcases as [->|Hcases]; [by vm_compute|]). by subst.
Qed.

Lemma int_digits_digit a b c rest :
  is_digit c = true →
  int_digits a b (c :: rest) = int_digits (10 * a + digit_value c) true rest.
Proof. intros Hc. simpl. by rewrite Hc. Qed.

Lemma digits_of_S fuel n acc :
  digits_of (S fuel) n acc
  = if decide (n < 10) then digit_char (n mod 10) :: acc
    else digits_of fuel (n / 10) (digit_char (n mod 10) :: acc).
Proof. done. Qed.

Lemma digits_of_spec (fuel : nat) : ∀ n acc,
  0 ≤ n < 2 ^ Z.of_nat (S fuel) →
  ∃ ds, digits_of (S fuel) n acc = ds ++ acc ∧ ds ≠ [] ∧
        Forall (λ c, is_digit c = true) ds ∧
        ∀ a b rest, int_digits a b (ds ++ rest)
                    = int_digits (a * 10 ^ Z.of_nat (length ds) + n) true rest.
Proof.
  induction fuel as [|fuel IH]; intros n acc Hn.
  all: assert (0 ≤ n mod 10 < 10) as Hmod by (apply Z.mod_pos_bound; lia).
  all: destruct (digit_char_spec _ Hmod) as [Hdig Hval].
  all: rewrite digits_of_S; destruct (decide (n < 10)) as [Hlt|Hge].
  1,3: exists [digit_char (n mod 10)]; split; [done|]; split; [done|];
       split; [by constructor|]; intros a b rest; simpl app;
       rewrite int_digits_digit by done; rewrite Hval, Z.mod_small by lia;
       f_equal; simpl; lia.
  - simpl in Hn. lia.
  - destruct (IH (n / 10) (digit_char (n mod 10) :: acc))
      as (ds & Hds & _ & Hall & Hval').
    { split; [apply Z.div_pos; lia|].
      apply Z.div_lt_upper_bound; [lia|].
      rewrite (Nat2Z.inj_succ (S fuel)), Z.pow_succ_r in Hn by lia. lia. }
    exists (ds ++ [digit_char (n mod 10)]).
    split; [by rewrite Hds, <- app_assoc|].
    split; [by destruct ds|]. split.
    { apply Forall_app. split; [done|]. by constructor. }
    intros a b rest. rewrite <- app_assoc. simpl app.
    rewrite Hval', int_digits_digit by done. rewrite Hval. f_equal.
    rewrite length_app, Nat2Z.inj_add, Z.pow_add_r by lia. simpl.
    pose proof (Z.div_mod n 10). lia.
Qed.

Lemma digits_spec (n : Z) :
  0 ≤ n →
  ∃ ds, digits_of (S (Z.to_nat (Z.log2 n))) n [] = ds ∧ ds ≠ [] ∧
        Forall (λ c, is_digit c = true) ds ∧
        int_digits 0 false ds = Some n.
Proof.
  intros Hn.
  destruct (digits_of_spec (Z.to_nat (Z.log2 n)) n []) as (ds & Hds & Hne & Hall & Hval).
  { split; [done|]. rewrite Nat2Z.inj_succ, Z2Nat.id by apply Z.log2_nonneg.
    destruct (decide (n = 0)) as [->|]; [done|].
    apply Z.log2_spec. lia. }
  exists ds. rewrite app_nil_r in Hds. split; [done|]. split; [done|].
  split; [done|]. specialize (Hval 0 false []). rewrite app_nil_r in Hval.
  rewrite Hval. simpl. f_equal; lia.
Qed.


Lemma lstrip_cons c s : is_space c = false → lstrip (c :: s) = c :: s.
Proof. intros Hc. cbn [lstrip]. by rewrite Hc. Qed.

Lemma lstrip_space s : lstrip (" "%char :: s) = lstrip s.
Proof. done. Qed.

(** text that neither starts nor ends with white space is left as it is *)
Lemma strip_ends s :
  (∀ c s', s = c :: s' → is_space c = false) →
  (∀ s' c, s = s' ++ [c] → is_space c = false) →
  strip s = s.
Proof.
  intros Hhead Hlast. unfold strip.
  destruct s as [|c s]; [done|].
  rewrite lstrip_cons by (by eapply Hhead).
  destruct (exists_last (l := c :: s)) as (s' & c' & Heq); [done|].
  rewrite Heq, reverse_app, reverse_singleton. simpl app.
  rewrite lstrip_cons by (by eapply Hlast).
  by rewrite reverse_cons, reverse_involutive.
Qed.

Lemma strip_num s : Forall num_char s → strip s = s.
Proof.
  intros Hs. apply strip_ends.
  - intros c s' ->. apply num_char_not_space. by apply Forall_cons in Hs as [? _].
  - intros s' c ->. apply num_char_not_space.
    by apply Forall_app in Hs as [_ [? _]%Forall_cons].
Qed.

Lemma strip_space s : strip (" "%char :: s) = strip s.
Proof. unfold strip. by rewrite lstrip_space. Qed.

Lemma str_int_chars (n : Z) : str_int n ≠ [] ∧ Forall num_char (str_int n).
Proof.
  unfold str_int. destruct (decide (n < 0)).
  - destruct (digits_spec (- n)) as (ds & -> & _ & Hall & _); [lia|].
    split; [done|]. constructor; [by right|].
    eapply Forall_impl; [exact Hall|]. intros c ?. by left.
  - destruct (digits_spec n) as (ds & -> & Hne & Hall & _); [lia|].
    split; [done|]. eapply Forall_impl; [exact Hall|]. intros c ?. by left.
Qed.

(** [int(str(n))] is [n] *)
Lemma py_int_str_int (n : Z) : py_int (str_int n) = Ok n.
Proof.
  unfold py_int. rewrite strip_num by apply str_int_chars.
  unfold str_int. destruct (decide (n < 0)).
  - destruct (digits_spec (- n)) as (ds & -> & _ & _ & ->); [lia|].
    rewrite decide_True by done. f_equal. lia.
  - destruct (digits_spec n) as (ds & -> & Hne & Hall & Hval); [lia|].
    destruct ds as [|c ds]; [done|].
    apply Forall_cons in Hall as [Hc _].
    rewrite decide_False by (intros ->; done).
    rewrite decide_False by (intros ->; done).
    rewrite Hval. f_equal. lia.
Qed.

Lemma split_no_sep (p : list ascii) : ","%char ∉ p → split "," p = [p].
Proof.
  induction p as [|c p IH]; [done|]. intros Hp.
  apply not_elem_of_cons in Hp as [Hc Hp]. cbn [split].
  rewrite decide_False by done. by rewrite IH.
Qed.

Lemma split_app (p rest : list ascii) :
  ","%char ∉ p → split "," (p ++ ","%char :: rest) = p :: split "," rest.
Proof.
  induction p as [|c p IH]; intros Hp.
  - simpl app. cbn [split]. by rewrite decide_True.
  - apply not_elem_of_cons in Hp as [Hc Hp]. simpl app. cbn [split].
    rewrite decide_False by done. by rewrite IH.
Qed.

Lemma split_join_comma (ps : list (list ascii)) : ∀ (pre p : list ascii),
  ","%char ∉ pre → Forall (λ p, ","%char ∉ p) (p :: ps) →
  split "," (pre ++ join_comma (p :: ps))
  = (pre ++ p) :: ((λ q, " "%char :: q) <$> ps).
Proof.
  induction ps as [|q ps IH]; intros pre p Hpre Hall.
  - apply Forall_cons in Hall as [Hp _]. simpl join_comma.
    apply split_no_sep. rewrite elem_of_app. tauto.
  - apply Forall_cons in Hall as [Hp Hall].
    change (join_comma (p :: q :: ps))
      with (p ++ ","%char :: [" "%char] ++ join_comma (q :: ps)).
    rewrite app_assoc, split_app by (rewrite elem_of_app; tauto).
    rewrite IH; [done| |done].
    by intros ?%list_elem_of_singleton.
Qed.

Lemma join_comma_starts (p : list ascii) ps c s :
  p ≠ [] → Forall num_char p → join_comma (p :: ps) = c :: s → num_char c.
Proof.
  intros Hne Hp. destruct p as [|c0 p]; [done|].
  apply Forall_cons in Hp as [Hc0 _].
  destruct ps as [|q ps]; simpl; by intros [= <- _].
Qed.

Lemma join_comma_ends (ps : list (list ascii)) : ∀ p s c,
  Forall (λ p, p ≠ [] ∧ Forall num_char p) (p :: ps) →
  join_comma (p :: ps) = s ++ [c] → num_char c.
Proof.
  induction ps as [|q ps IH]; intros p s c Hall.
  - apply Forall_cons in Hall as [[_ Hp] _]. simpl. intros ->.
    by apply Forall_app in Hp as [_ [? _]%Forall_cons].
  - apply Forall_cons in Hall as [_ Hall].
    change (join_comma (p :: q :: ps))
      with (p ++ ","%char :: " "%char :: join_comma (q :: ps)).
    destruct (exists_last (l := join_comma (q :: ps))) as (t & c' & Heq).
    { apply Forall_cons in Hall as [[Hq _] _].
      destruct q; [done|]. by destruct ps. }
    rewrite Heq.
    change (p ++ ","%char :: " "%char :: t ++ [c'])
      with (p ++ [","%char; " "%char] ++ t ++ [c']).
    rewrite !app_assoc. intros [_ <-]%app_inj_tail.
    by eapply IH.
Qed.

(** a printed list that is not empty is read back as it was *)
Lemma parse_products_str_list (l : list Z) :
  l ≠ [] → parse_products (str_list l) = Ok l.
Proof.
  intros Hne. destruct l as [|x l]; [done|].
  unfold parse_products, str_list.
  rewrite String.list_ascii_of_string_of_list_ascii.
  set (body := join_comma (str_int <$> x :: l)).
  assert (slice_1_m1 ("["%char :: body ++ ["]"%char]) = body) as ->.
  { unfold slice_1_m1.
    assert (length ("["%char :: body ++ ["]"%char]) - 2 = length body)%nat as ->
      by (rewrite length_cons, length_app; simpl; lia).
    change (drop 1 ("["%char :: body ++ ["]"%char])) with (body ++ ["]"%char]).
    by rewrite take_app_length. }
  assert (Forall (λ p, p ≠ [] ∧ Forall num_char p) (str_int <$> x :: l)) as Hall.
  { apply Forall_fmap, Forall_forall. intros y _. apply str_int_chars. }
  rewrite strip_ends.
  2:{ intros c s Hbody. apply num_char_not_space.
      rewrite fmap_cons in Hall. apply Forall_cons in Hall as [[? ?] _].
      by eapply join_comma_starts. }
  2:{ intros s c Hbody. apply num_char_not_space.
      by eapply join_comma_ends. }
  unfold body. rewrite fmap_cons.
  rewrite <- (app_nil_l (join_comma _)), split_join_comma.
  2:{ by intros ?%elem_of_nil. }
  2:{ rewrite <- fmap_cons. eapply Forall_impl; [exact Hall|].
      intros p [_ Hp] Hin. rewrite Forall_forall in Hp.
      by apply Hp, num_char_not_comma in Hin. }
  simpl app. cbn [mapM].
  rewrite strip_num, py_int_str_int by apply str_int_chars. simpl.
  assert (mapM (λ p, py_int (strip p)) ((λ q, " "%char :: q) <$> (str_int <$> l))
          = Ok l) as ->; [|done].
  clear. induction l as [|y l IH]; [done|].
  rewrite !fmap_cons. cbn [mapM].
  rewrite strip_space, strip_num, py_int_str_int by apply str_int_chars.
  simpl. by rewrite IH.
Qed.

Example parse_products_str_list_nil : parse_products (str_list []) = Raise "ValueError".
Proof. by vm_compute. Qed.

Example str_list_sample : str_list [196; -5; 0; 25133] = "[196, -5, 0, 25133]"%string.
Proof. by vm_compute. Qed.

Lemma make_test_data_baskets (df_orders : list order_row)
    (df_order_products_train : list order_product_row)
    (rows : list (frame_row (list Z))) :
  make_test_data df_orders df_order_products_train = Ok rows →
  Forall (λ r, t_products r ≠ []) rows.
Proof.
  unfold make_test_data.
  destruct (decide (unique_count _ ≠ unique_count _)); [done|].
  destruct (decide (_ ≠ _)); [done|]. intros [= <-].
  rewrite merge_groupby_products.
  apply Forall_fmap, Forall_forall. intros o [Hin _]%list_elem_of_filter. simpl.
  apply list_elem_of_fmap in Hin as (l & Heq & Hl).
  intros Hnil%fmap_nil_inv.
  assert (l ∈ filter (λ l, op_order_id l = o_order_id o) df_order_products_train)
    as Hl' by (by apply list_elem_of_filter).
  rewrite Hnil in Hl'. by apply elem_of_nil in Hl'.
Qed.
End read_back.

(** the frame [make_test_data] writes comes back from the file with the
    same users and with every products cell a text that is read as the
    basket it was written from; hence on these rows [new_products]
    raises no [ValueError], whatever the globals are *)
Theorem test_frame_is_read_back (df_orders : list order_row)
    (df_order_products_train : list order_product_row)
    (rows : list (frame_row (list Z))) :
  make_test_data df_orders df_order_products_train = Ok rows →
  Forall2 (λ r row, t_user_id row = t_user_id r
                    ∧ parse_products (t_products row) = Ok (t_products r))
    rows (written_and_read rows) ∧
  (∀ nb row e, row ∈ written_and_read rows → new_products nb row = Raise e →
               e = "KeyError"%string ∨ e = "IndexError"%string).
Proof.
  intros Hrows%make_test_data_baskets.
  assert (Forall2 (λ r row, t_user_id row = t_user_id r
                            ∧ parse_products (t_products row) = Ok (t_products r))
            rows (written_and_read rows)) as Hread.
  { unfold written_and_read. apply Forall2_fmap_r, Forall_Forall2_diag.
    eapply Forall_impl; [exact Hrows|]. intros r Hr. simpl.
    split; [done|]. by apply parse_products_str_list. }
  split; [done|]. intros nb row e Hrow Hraise.
  destruct (new_products_Raise nb row e Hraise) as [->|?]; [|done].
  apply new_products_ValueError in Hraise.
  apply list_elem_of_lookup in Hrow as [i Hi].
  destruct (Forall2_lookup_r _ _ _ _ _ Hread Hi) as (r & _ & _ & Hparse).
  congruence.
Qed.

Lemma test_frame_is_read_back_witness :
  written_and_read SampleTest.df_user_products_test
  = [ {| t_user_id := 2; t_products := "[77, 50]" |} ] ∧
  Forall2 (λ r row, t_user_id row = t_user_id r
                    ∧ parse_products (t_products row) = Ok (t_products r))
    SampleTest.df_user_products_test
    (written_and_read SampleTest.df_user_products_test).
Proof.
  split; [by vm_compute|].
  apply (test_frame_is_read_back Sample.df_orders SampleTest.df_order_products_train).
  by vm_compute.
Defined.

(** ** The evaluation frame *)

Section eval_frame.
Implicit Types (nb : notebook) (df : list test_row).

Lemma mapM_result_Ok {A B} (f : A → result B) (l : list A) (ys : list B) :
  mapM f l = Ok ys → Forall2 (λ x y, f x = Ok y) l ys.
Proof.
  revert ys. induction l as [|x l IH]; intros ys.
  - intros [= <-]. constructor.
  - simpl. destruct (f x) as [y|] eqn:Hx; [|done]. simpl.
    destruct (mapM f l) as [ys'|]; [|done]. simpl. intros [= <-].
    constructor; [done | by apply IH].
Qed.

Lemma mapM_result_Raise {A B} (f : A → result B) (l : list A) :
  (∃ x e, x ∈ l ∧ f x = Raise e) →
  ∃ x e, x ∈ l ∧ f x = Raise e ∧ mapM f l = Raise e.
Proof.
  induction l as [|x l IH]; intros (x0 & e0 & Hin & Hx0);
    [by apply elem_of_nil in Hin|].
  destruct (f x) as [y|e] eqn:Hx.
  - destruct IH as (x1 & e1 & Hin1 & Hx1 & Hm).
    { apply elem_of_cons in Hin as [->|Hin]; [congruence|]. by exists x0, e0. }
    exists x1, e1. split; [by right|]. split; [done|].
    simpl. rewrite Hx. simpl. by rewrite Hm.
  - exists x, e. split; [left|]. split; [done|]. simpl. by rewrite Hx.
Qed.

Lemma popular_recommend_inv nb row (s : Q) :
  popular_recommend nb row = Ok s →
  ∃ actual, new_products nb row = Ok actual ∧
            s = recall_score (elements actual) (popular_products nb).
Proof.
  unfold popular_recommend.
  destruct (new_products nb row) as [actual|]; [|done]. simpl.
  intros [= <-]. by exists actual.
Qed.

Lemma imf_recommend_inv nb row (s : Q) :
  imf_recommend nb row = Ok s →
  ∃ actual ids, new_products nb row = Ok actual ∧
                s = recall_score (elements actual) ids.
Proof.
  unfold imf_recommend.
  destruct (new_products nb row) as [actual|]; [|done]. simpl.
  destruct (dict_get _ _) as [u|]; [|done]. simpl.
  destruct (recommend _ _ _ _) as [res|]; [|done]. simpl.
  destruct (mapM _ res) as [ids|]; [|done]. simpl.
  intros [= <-]. by exists actual, ids.
Qed.

Lemma popular_recommend_Raise nb row e :
  popular_recommend nb row = Raise e →
  e = "ValueError"%string ∨ e = "KeyError"%string ∨ e = "IndexError"%string.
Proof.
  unfold popular_recommend.
  destruct (new_products nb row) as [actual|e'] eqn:Hnew; [done|]. simpl.
  intros [= <-]. by eapply new_products_Raise.
Qed.

Lemma zip_scores df (popular imf : list Q) (P1 P2 : test_row → Q → Prop) :
  Forall2 P1 df popular → Forall2 P2 df imf →
  Forall2 (λ r e, e_row e = r ∧ P1 r (popular_score e) ∧ P2 r (imf_score e)) df
    (zip_with (λ r ps, {| e_row := r; popular_score := ps.1; imf_score := ps.2 |})
       df (zip popular imf)).
Proof.
  intros H1. revert imf. induction H1 as [|r p df popular Hp _ IH]; intros imf H2.
  - inversion H2. constructor.
  - inversion H2 as [|? q ? imf' Hq H2']; subst. simpl.
    constructor; [done | by apply IH].
Qed.
Lemma Forall2_e_row (P : test_row → eval_row → Prop) df (es : list eval_row) :
  Forall2 (λ r e, e_row e = r ∧ P r e) df es →
  e_row <$> es = df ∧ Forall (λ e, P (e_row e) e) es.
Proof.
  induction 1 as [|r e rs es [Hr HP] _ [IH1 IH2]]; [by split|].
  rewrite fmap_cons, Hr, IH1. split; [done|]. constructor; [|done].
  by rewrite Hr.
Qed.
End eval_frame.

(** when [build_eval_df] succeeds, its frame holds the evaluated rows in
    order (all test rows when no subset is asked for), each with the
    scores the two predictors give it, both between 0 and 1 *)
Theorem build_eval_df_scores
    (sample : list test_row → Q → result (list test_row))
    (nb : notebook) (df : list test_row) (subset : option Q)
    (evals : list eval_row) :
  build_eval_df sample nb df subset = Ok evals →
  df_eval_rows sample df subset = Ok (e_row <$> evals) ∧
  (subset = None → e_row <$> evals = df) ∧
  Forall (λ e, popular_recommend nb (e_row e) = Ok (popular_score e)
               ∧ imf_recommend nb (e_row e) = Ok (imf_score e)
               ∧ (0 <= popular_score e)%Q ∧ (popular_score e <= 1)%Q
               ∧ (0 <= imf_score e)%Q ∧ (imf_score e <= 1)%Q) evals.
Proof.
  unfold build_eval_df.
  destruct (df_eval_rows sample df subset) as [df_eval|] eqn:Hrows; [|done].
  simpl. destruct (decide (df_eval = [])); [done|].
  destruct (mapM (popular_recommend nb) df_eval) as [popular|] eqn:Hpop; [|done].
  simpl. destruct (mapM (imf_recommend nb) df_eval) as [imf|] eqn:Himf; [|done].
  simpl. intros [= <-].
  pose proof (zip_scores df_eval popular imf _ _
                (mapM_result_Ok _ _ _ Hpop) (mapM_result_Ok _ _ _ Himf)) as Hall.
  apply (Forall2_e_row
           (λ r e, popular_recommend nb r = Ok (popular_score e)
                   ∧ imf_recommend nb r = Ok (imf_score e))) in Hall
    as [Hsame Hscores].
  rewrite Hsame. split; [done|]. split.
  { intros ->. simpl in Hrows. by injection Hrows as <-. }
  eapply Forall_impl; [exact Hscores|]. intros e [Hp Hi]. simpl in *.
  split; [done|]. split; [done|].
  apply popular_recommend_inv in Hp as (actual & _ & ->).
  apply imf_recommend_inv in Hi as (actual' & ids & _ & ->).
  pose proof (recall_score_unit (elements actual) (popular_products nb)) as [? ?].
  pose proof (recall_score_unit (elements actual') ids) as [? ?].
  done.
Qed.

Lemma build_eval_df_scores_witness :
  df_eval_rows (λ df _, Ok (take 1 df)) [Sample.basket_of_user_2] None
  = Ok (e_row <$> [ {| e_row := Sample.basket_of_user_2; popular_score := 1 # 2;
                       imf_score := 1 # 2 |} ]) ∧
  ((None : option Q) = None →
   e_row <$> [ {| e_row := Sample.basket_of_user_2; popular_score := 1 # 2;
                  imf_score := 1 # 2 |} ]
   = [Sample.basket_of_user_2]) ∧
  Forall (λ e, popular_recommend Sample.globals (e_row e) = Ok (popular_score e)
               ∧ imf_recommend Sample.globals (e_row e) = Ok (imf_score e)
               ∧ (0 <= popular_score e)%Q ∧ (popular_score e <= 1)%Q
               ∧ (0 <= imf_score e)%Q ∧ (imf_score e <= 1)%Q)
    [ {| e_row := Sample.basket_of_user_2; popular_score := 1 # 2;
         imf_score := 1 # 2 |} ].
Proof.
  apply (build_eval_df_scores (λ df _, Ok (take 1 df)) Sample.globals
           [Sample.basket_of_user_2] None).
  by vm_compute.
Defined.

(** one evaluated row whose user the training data does not know makes
    the whole evaluation fail: with [KeyError], with the [IndexError]
    of an earlier row, or with [ValueError], and with that one only
    when the products cell of an evaluated row is not a list of
    integers; no partial frame is returned *)
Theorem build_eval_df_unknown_user
    (sample : list test_row → Q → result (list test_row))
    (nb : notebook) (df df_eval : list test_row) (subset : option Q)
    (row : test_row) :
  df_eval_rows sample df subset = Ok df_eval →
  row ∈ df_eval →
  u_dict nb !! t_user_id row = None →
  ∃ e, build_eval_df sample nb df subset = Raise e ∧
       (e = "ValueError"%string ∨ e = "KeyError"%string ∨ e = "IndexError"%string) ∧
       (e = "ValueError"%string →
        ∃ r, r ∈ df_eval ∧ parse_products (t_products r) = Raise "ValueError").
Proof.
  intros Hrows Hrow Hu. unfold build_eval_df. rewrite Hrows. simpl.
  rewrite decide_False by (intros ->; by apply elem_of_nil in Hrow).
  destruct (mapM_result_Raise (popular_recommend nb) df_eval)
    as (x & e & Hin & Hx & Hm).
  { destruct (popular_recommend nb row) as [s|e] eqn:Hpop; [|by exists row, e].
    apply popular_recommend_inv in Hpop as (actual & Hnew & _).
    apply new_products_Ok in Hnew as (_ & u & _ & _ & _ & Hu' & _).
    congruence. }
  exists e. rewrite Hm. split; [done|].
  split; [by eapply popular_recommend_Raise|].
  intros ->. exists x. split; [done|].
  unfold popular_recommend in Hx.
  destruct (new_products nb x) as [actual|e] eqn:Hnew; [done|].
  simpl in Hx. injection Hx as ->. by apply new_products_ValueError in Hnew.
Qed.

Lemma build_eval_df_unknown_user_witness :
  ∃ e, build_eval_df (λ df _, Ok (take 1 df)) Sample.globals
         [Sample.basket_of_user_2; Sample.basket_of_user_3] None = Raise e ∧
       (e = "ValueError"%string ∨ e = "KeyError"%string ∨ e = "IndexError"%string) ∧
       (e = "ValueError"%string →
        ∃ r, r ∈ [Sample.basket_of_user_2; Sample.basket_of_user_3]
             ∧ parse_products (t_products r) = Raise "ValueError").
Proof.
  apply (build_eval_df_unknown_user (λ df _, Ok (take 1 df)) Sample.globals
           [Sample.basket_of_user_2; Sample.basket_of_user_3]
           [Sample.basket_of_user_2; Sample.basket_of_user_3] None
           Sample.basket_of_user_3).
  - done.
  - right. left.
  - by vm_compute.
Defined.

(** ** Globals of the notebook *)

Section globals.
Implicit Types cats : list Z.

Lemma size_make_u_dict cats : NoDup cats → size (make_u_dict cats) = length cats.
Proof.
  intros Hnd. rewrite <- (size_dom (D := gset Z)).
  rewrite <- (size_list_to_set (C := gset Z) cats) by done. f_equal.
  apply set_eq. intros uid. rewrite elem_of_dom, elem_of_list_to_set. split.
  - intros [i Hi]. apply make_u_dict_lookup in Hi; [|done].
    by eapply list_elem_of_lookup_2.
  - intros [i Hi]%list_elem_of_lookup. exists i. by apply make_u_dict_lookup.
Qed.

Lemma size_make_p_dict cats : size (make_p_dict cats) = length cats.
Proof.
  rewrite <- (size_dom (D := gset nat)).
  rewrite <- (size_set_seq (C := gset nat) 0 (length cats)). f_equal.
  apply set_eq. intros i.
  rewrite elem_of_dom, make_p_dict_lookup, elem_of_set_seq, lookup_lt_is_Some. lia.
Qed.
End globals.

(** the dictionaries and the matrix the notebook computes fit each
    other: [u_dict] has one entry per matrix row and maps into the rows,
    and [p_dict] decodes exactly the column indices *)
Theorem index_maps_match_matrix (orders : list order_row)
    (ops : list order_product_row) (products : list product_row)
    (model : als_model) (nb : notebook) :
  run_notebook orders ops products model = Ok nb →
  size (u_dict nb) = (shape (user_product_matrix nb)).1 ∧
  size (p_dict nb) = (shape (user_product_matrix nb)).2 ∧
  (∀ uid (u : nat), u_dict nb !! uid = Some u →
                    (u < (shape (user_product_matrix nb)).1)%nat) ∧
  (∀ i : nat, (i < (shape (user_product_matrix nb)).2)%nat
              ↔ is_Some (p_dict nb !! i)).
Proof.
  intros Hrun.
  destruct (run_notebook_inv _ _ _ _ _ Hrun) as (m & Hbuild & Hu & Hp & Hupm & _).
  destruct (build_product_user_matrix_inv _ _ Hbuild) as (_ & Hshape & _ & _).
  rewrite Hu, Hp, Hupm. simpl. rewrite Hshape. simpl.
  set (users := categories _) in *. set (items := categories _) in *.
  assert (NoDup users) as Hnd by apply KeysFacts.NoDup_unique_sorted.
  split; [by apply size_make_u_dict|]. split; [apply size_make_p_dict|].
  split.
  - intros uid u Hlook. apply make_u_dict_lookup in Hlook; [|done].
    by eapply lookup_lt_Some.
  - intros i. by rewrite make_p_dict_lookup, lookup_lt_is_Some.
Qed.

Lemma index_maps_match_matrix_witness :
  size (u_dict Sample.globals) = (shape (user_product_matrix Sample.globals)).1 ∧
  size (p_dict Sample.globals) = (shape (user_product_matrix Sample.globals)).2 ∧
  (∀ uid (u : nat), u_dict Sample.globals !! uid = Some u →
                    (u < (shape (user_product_matrix Sample.globals)).1)%nat) ∧
  (∀ i : nat, (i < (shape (user_product_matrix Sample.globals)).2)%nat
              ↔ is_Some (p_dict Sample.globals !! i)).
Proof.
  apply (index_maps_match_matrix Sample.df_orders Sample.df_order_products_prior
           Sample.df_products Sample.model).
  by vm_compute.
Defined.

(** a test row without new products scores 0 with both predictors *)
Theorem no_new_products_scores_zero (nb : notebook) (row : test_row) :
  new_products nb row = Ok ∅ →
  popular_recommend nb row = Ok 0%Q ∧
  (∀ s, imf_recommend nb row = Ok s → s = 0%Q).
Proof.
  intros Hnew. split.
  - unfold popular_recommend. rewrite Hnew. simpl. by rewrite elements_empty.
  - intros s Himf. apply imf_recommend_inv in Himf as (actual & ids & Hnew' & ->).
    rewrite Hnew in Hnew'. injection Hnew' as <-. by rewrite elements_empty.
Qed.

Lemma no_new_products_scores_zero_witness :
  popular_recommend Sample.globals SampleTest.nothing_new = Ok 0%Q ∧
  (∀ s, imf_recommend Sample.globals SampleTest.nothing_new = Ok s → s = 0%Q).
Proof.
  apply (no_new_products_scores_zero Sample.globals SampleTest.nothing_new).
  by vm_compute.
Defined.
